(** * FakerBeat: the mastering engine's analysis and export code

    A shallow embedding of [services/audioUtils.ts], of the parts of the
    [App] component that hold the settings, build the signal graph, run
    the transport and feed the monitor, and of the [Knob] and
    [Visualizer] components, with the properties the specification
    states about them and further properties of the code.

    Number model.  A JavaScript [number] that holds a sample, a level in
    dB, a gain or a frequency is a real number ([R]): arithmetic is exact,
    there is no NaN and no rounding to binary64 or to the [Float32Array]
    element type.  A [number] that the code only ever uses as a whole
    number (an index, a length, a sample rate in Hz, a byte, a score, a
    MIDI note) is an integer ([Z] or [nat]).  Where JavaScript's division
    by zero matters, the model tests for it explicitly. *)

From Stdlib Require Import Reals Lra Lia ZArith String List Bool.
From Stdlib Require Import Zfloor Sorted DecimalString.
Import ListNotations.

Open Scope R_scope.

(** * Part I: the program *)

(** ** JavaScript numbers *)

Definition Rltb (x y : R) : bool := if Rlt_dec x y then true else false.
Definition Rgtb (x y : R) : bool := if Rgt_dec x y then true else false.
Definition Rleb (x y : R) : bool := if Rle_dec x y then true else false.

(** [Math.floor], [Math.round] (ties go up), [Math.max], [Math.min],
    [Math.abs], [Math.log10]. *)
Definition Math_floor (x : R) : Z := Zfloor x.
Definition Math_round (x : R) : Z := Zfloor (x + / 2).
Definition Math_max (x y : R) : R := Rmax x y.
Definition Math_min (x y : R) : R := Rmin x y.
Definition Math_abs (x : R) : R := Rabs x.
Definition Math_log10 (x : R) : R := ln x / ln 10.

(** [Math.pow]. *)
Definition Math_pow (x y : R) : R := Rpower x y.

(** [x || d] on numbers: [d] when [x] is zero. *)
Definition or_default (x d : R) : R := if Req_dec_T x 0 then d else x.

(** [x | 0] on a number: truncate towards zero, then wrap to a signed
    32-bit integer. *)
Definition truncate (x : R) : Z := if Rltb x 0 then Zceil x else Zfloor x.

Definition wrap_int32 (z : Z) : Z := ((z + 2 ^ 31) mod 2 ^ 32 - 2 ^ 31)%Z.

Definition ToInt32 (x : R) : Z := wrap_int32 (truncate x).

(** ** Bytes, typed arrays and loops *)

(** Byte [k] of an integer, least significant first (two's complement for
    a negative one). *)
Definition byte_at (k : Z) (v : Z) : Z := Z.land (Z.shiftr v (8 * k)) 255.

Definition le_bytes16 (v : Z) : list Z := [byte_at 0 v; byte_at 1 v].

Definition le_bytes32 (v : Z) : list Z :=
  [byte_at 0 v; byte_at 1 v; byte_at 2 v; byte_at 3 v].

(** A [DataView] over an [ArrayBuffer], as its bytes.  [new ArrayBuffer]
    and the view's setters throw a [RangeError] ([None]) outside the
    buffer. *)
Definition ArrayBuffer_new (length : Z) : option (list Z) :=
  if (length <? 0)%Z then None else Some (repeat 0%Z (Z.to_nat length)).

Definition view_set (view : list Z) (at_ : Z) (bytes : list Z)
  : option (list Z) :=
  if ((at_ <? 0) || (Z.of_nat (length view) <? at_ + Z.of_nat (length bytes)))%Z
  then None
  else Some (firstn (Z.to_nat at_) view ++ bytes
             ++ skipn (Z.to_nat at_ + length bytes) view).

(** Reading a typed array at an index.  Outside the array JavaScript
    yields [undefined], which arithmetic turns into NaN; the model yields
    0.  Only [bufferToWave] can read outside (when [len] exceeds the
    buffer's length), and there NaN ends as the integer 0 as well. *)
Definition typed_get (data : list R) (i : Z) : R :=
  if (i <? 0)%Z then 0 else nth (Z.to_nat i) data 0.

(** The indices of [for (i = lo; i < hi; i++)] and of
    [for (i = 0; i < n; i += step)]. *)
Definition for_range (lo hi : Z) : list Z :=
  map (fun k : nat => (lo + Z.of_nat k)%Z) (seq 0 (Z.to_nat (hi - lo))).

Definition stride_range (n step : Z) : list Z :=
  map (fun k : nat => (Z.of_nat k * step)%Z)
      (seq 0 (Z.to_nat ((n + step - 1) / step))).

(** ** The Web Audio [AudioBuffer] *)

(** A decoded buffer: its sample rate in Hz and one sample list per
    channel, all of the same length.  [numberOfChannels], [length] and
    [duration] are derived as the Web Audio API defines them. *)
Record AudioBuffer := mkAudioBuffer {
  sampleRate : Z;
  channelData : list (list R)
}.

Definition numberOfChannels (b : AudioBuffer) : nat := length (channelData b).

Definition getChannelData (b : AudioBuffer) (i : nat) : list R :=
  nth i (channelData b) [].

Definition buffer_length (b : AudioBuffer) : Z :=
  Z.of_nat (length (getChannelData b 0)).

Definition duration (b : AudioBuffer) : R :=
  IZR (buffer_length b) / IZR (sampleRate b).

(** ** types.ts *)

Record AudioStats := mkAudioStats {
  stats_duration : R;
  stats_sampleRate : Z;
  stats_numberOfChannels : nat;
  rms : R;
  peak : R;
  crestFactor : R;
  lowEnergy : R;
  midEnergy : R;
  highEnergy : R;
  subBassEnergy : R;
  stereoCorrelation : R
}.

Record MasteringSettings := mkMasteringSettings {
  inputGain : R;
  limiterCeiling : R;
  saturation : R;
  stereoWidth : R;
  eqLow : R;
  eqMid : R;
  eqHigh : R;
  mbLowThreshold : R;
  mbMidThreshold : R;
  mbHighThreshold : R
}.

(** [keyof MasteringSettings]. *)
Inductive SettingKey :=
| InputGain | LimiterCeiling | Saturation | StereoWidth
| EqLow | EqMid | EqHigh
| MbLowThreshold | MbMidThreshold | MbHighThreshold.

Definition setting (key : SettingKey) (s : MasteringSettings) : R :=
  match key with
  | InputGain => inputGain s
  | LimiterCeiling => limiterCeiling s
  | Saturation => saturation s
  | StereoWidth => stereoWidth s
  | EqLow => eqLow s
  | EqMid => eqMid s
  | EqHigh => eqHigh s
  | MbLowThreshold => mbLowThreshold s
  | MbMidThreshold => mbMidThreshold s
  | MbHighThreshold => mbHighThreshold s
  end.

(** ** audioUtils.ts: bufferToWave *)

(** The variables the writing code shares: the view and the two cursors
    [pos] and [offset]. *)
Record Writer := mkWriter { view : list Z; pos : Z; offset : Z }.

Definition and_then (w : option Writer) (f : Writer -> option Writer)
  : option Writer :=
  match w with
  | Some w => f w
  | None => None
  end.

Notation "w >>= f" := (and_then w f) (at level 50, left associativity).

Definition setUint16 (data : Z) (w : Writer) : option Writer :=
  match view_set (view w) (pos w) (le_bytes16 data) with
  | Some v => Some (mkWriter v (pos w + 2) (offset w))
  | None => None
  end.

Definition setUint32 (data : Z) (w : Writer) : option Writer :=
  match view_set (view w) (pos w) (le_bytes32 data) with
  | Some v => Some (mkWriter v (pos w + 4) (offset w))
  | None => None
  end.

(** Lines 25-37: the header. *)
Definition write_header (numOfChan sampleRate length : Z) (w : Writer)
  : option Writer :=
  Some w
  >>= setUint32 0x46464952
  >>= setUint32 (length - 8)
  >>= setUint32 0x45564157
  >>= setUint32 0x20746d66
  >>= setUint32 16
  >>= setUint16 1
  >>= setUint16 numOfChan
  >>= setUint32 sampleRate
  >>= setUint32 (sampleRate * 2 * numOfChan)
  >>= setUint16 (numOfChan * 2)
  >>= setUint16 16
  >>= setUint32 0x61746164
  >>= (fun w => setUint32 (length - pos w - 4) w).

(** Lines 44-45: clamp to [-1, 1] and scale to a 16-bit integer. *)
Definition encode_sample (s : R) : Z :=
  let sample := Math_max (-1) (Math_min 1 s) in
  ToInt32 (if Rltb (0.5 + sample) 0 then sample * 32768 else sample * 32767).

(** Lines 44-47: one channel's sample of the frame at [pos]. *)
Definition write_sample (abuffer : AudioBuffer) (w : Writer) (i : nat)
  : option Writer :=
  let sample := encode_sample (typed_get (getChannelData abuffer i) (pos w)) in
  match view_set (view w) (44 + offset w) (le_bytes16 sample) with
  | Some v => Some (mkWriter v (pos w) (offset w + 2))
  | None => None
  end.

(** Lines 43-49: the body of the [while] loop. *)
Definition write_frame (abuffer : AudioBuffer) (numOfChan : nat) (w : Writer)
  : option Writer :=
  fold_left (fun w i => w >>= (fun w => write_sample abuffer w i))
            (seq 0 numOfChan) (Some w)
  >>= (fun w => Some (mkWriter (view w) (pos w + 1) (offset w))).

(** Lines 42-50: [while (pos < len)].  [pos] goes up by one per round and
    [len] is fixed, so the loop runs [len - pos] rounds (none if [pos] is
    already at [len] or beyond). *)
Definition write_frames (abuffer : AudioBuffer) (numOfChan : nat) (len : Z)
           (w : Writer) : option Writer :=
  fold_left (fun w _ => w >>= write_frame abuffer numOfChan)
            (for_range (pos w) len) (Some w).

(** The bytes of the blob; [None] if a [RangeError] is thrown. *)
Definition bufferToWave (abuffer : AudioBuffer) (len : Z) : option (list Z) :=
  let numOfChan := numberOfChannels abuffer in
  let length := (len * Z.of_nat numOfChan * 2 + 44)%Z in
  match ArrayBuffer_new length with
  | None => None
  | Some buffer =>
      match
        write_header (Z.of_nat numOfChan) (sampleRate abuffer) length
                     (mkWriter buffer 0 0)
        >>= write_frames abuffer numOfChan len
      with
      | Some w => Some (view w)
      | None => None
      end
  end.

(** ** audioUtils.ts: calculateAudioStats *)

(** The loop's accumulators. *)
Record StatsAcc := mkStatsAcc {
  acc_sumSquares : R;
  acc_peak : R;
  acc_stereoSum : R;
  acc_lowSum : R;
  acc_highSum : R;
  acc_subSum : R
}.

Definition stats_init : StatsAcc := mkStatsAcc 0 0 0 0 0 0.

Definition durationToAnalyze (buffer : AudioBuffer) : R :=
  Math_min (duration buffer) 15.

Definition sampleSize (buffer : AudioBuffer) : Z :=
  Math_floor (durationToAnalyze buffer * IZR (sampleRate buffer)).

Definition startOffset (buffer : AudioBuffer) : Z :=
  Math_floor (IZR (buffer_length buffer) / 2 - IZR (sampleSize buffer) / 2).

Definition actualStart (buffer : AudioBuffer) : Z :=
  Z.max 0 (startOffset buffer).

(** The loop bound [Math.min(actualStart + sampleSize, buffer.length)]. *)
Definition analysisEnd (buffer : AudioBuffer) : Z :=
  Z.min (actualStart buffer + sampleSize buffer) (buffer_length buffer).

(** One iteration of the loop at index [i]. *)
Definition stats_step (left right : list R) (actualStart : Z)
           (acc : StatsAcc) (i : Z) : StatsAcc :=
  let sL := typed_get left i in
  let sR := typed_get right i in
  let mid := (sL + sR) / 2 in
  let absMid := Math_abs mid in
  let peak := if Rgtb absMid (acc_peak acc) then absMid else acc_peak acc in
  let sumSquares := acc_sumSquares acc + mid * mid in
  let stereoSum := acc_stereoSum acc + sL * sR in
  if (actualStart <? i)%Z then
    let diff := Math_abs (mid - typed_get left (i - 1)) in
    let smooth := (mid + typed_get left (i - 1)) / 2 in
    let highSum := acc_highSum acc + diff * diff in
    let lowSum := acc_lowSum acc + smooth * smooth in
    let subSum :=
      if (Z.rem i 10 =? 0)%Z
      then acc_subSum acc + (if Rgtb (Math_abs mid) 0.1 then 1 else 0)
      else acc_subSum acc in
    mkStatsAcc sumSquares peak stereoSum lowSum highSum subSum
  else
    mkStatsAcc sumSquares peak stereoSum
               (acc_lowSum acc) (acc_highSum acc) (acc_subSum acc).

Definition calculateAudioStats (buffer : AudioBuffer) : AudioStats :=
  let left := getChannelData buffer 0 in
  let right :=
    if (1 <? numberOfChannels buffer)%nat then getChannelData buffer 1
    else left in
  let acc :=
    fold_left (stats_step left right (actualStart buffer))
              (for_range (actualStart buffer) (analysisEnd buffer))
              stats_init in
  let rms :=
    sqrt (acc_sumSquares acc / IZR (Z.max 1 (sampleSize buffer))) in
  let rmsDb := 20 * Math_log10 (or_default rms 0.000001) in
  let peakDb := 20 * Math_log10 (or_default (acc_peak acc) 0.000001) in
  let correlation :=
    acc_stereoSum acc / or_default (acc_sumSquares acc) 1 in
  let totalSpec := acc_lowSum acc + acc_highSum acc in
  mkAudioStats
    (duration buffer)
    (sampleRate buffer)
    (numberOfChannels buffer)
    rmsDb
    peakDb
    (peakDb - rmsDb)
    (acc_lowSum acc / or_default totalSpec 1)
    0.5
    (acc_highSum acc / or_default totalSpec 1)
    (acc_subSum acc / (IZR (Z.max 1 (sampleSize buffer)) / 10))
    (Math_max (-1) (Math_min 1 correlation)).

(** ** audioUtils.ts: calculateProductionScore *)

(** The running [score] only ever holds whole numbers, so it is a [Z];
    [Math.floor] is applied to it as the source does. *)
Definition calculateProductionScore (stats : AudioStats) : Z :=
  let score := 100%Z in
  let score := if Rgtb (peak stats) (-0.1) then (score - 30)%Z else score in
  let score := if Rltb (crestFactor stats) 4 then (score - 20)%Z else score in
  let score := if Rgtb (crestFactor stats) 15 then (score - 15)%Z else score in
  let score := if Rltb (stereoCorrelation stats) 0 then (score - 40)%Z else score in
  let score := if Rgtb (stereoCorrelation stats) 0.95 then (score - 10)%Z else score in
  Z.max 0 (Z.min 100 (Math_floor (IZR score))).

(** ** audioUtils.ts: makeDistortionCurve *)

Definition n_samples : Z := 44100.

(** The body of the loop: the value stored at [curve[i]]. *)
Definition curve_entry (k : R) (i : Z) : R :=
  let x := (IZR i * 2) / IZR n_samples - 1 in
  let drive := 1 + k / 10 in
  (2 / PI) * atan (x * drive).

Definition makeDistortionCurve (amount : R) : list R :=
  let k := amount in
  map (fun i : nat => curve_entry k (Z.of_nat i)) (seq 0 (Z.to_nat n_samples)).

(** ** audioUtils.ts: detectBPM *)

Definition sliceDuration : Z := 30.

Definition startSample (buffer : AudioBuffer) : Z :=
  Math_floor ((duration buffer / 2) * IZR (sampleRate buffer)).

Definition endSample (buffer : AudioBuffer) : Z :=
  Z.min (buffer_length buffer)
        (startSample buffer + sliceDuration * sampleRate buffer).

Definition sliceLength (buffer : AudioBuffer) : Z :=
  endSample buffer - startSample buffer.

(** The copy loop: [sliceData[i] = originalData[startSample + i]]. *)
Definition sliceData (buffer : AudioBuffer) : list R :=
  let originalData := getChannelData buffer 0 in
  map (fun i : Z => typed_get originalData (startSample buffer + i))
      (for_range 0 (sliceLength buffer)).

Definition threshold : R := 0.4.

(** The peak picker: every 1000th sample above the threshold, at least
    2000 samples after the previous peak. *)
Definition peak_step (data : list R) (peaks : list Z) (i : Z) : list Z :=
  if Rgtb (typed_get data i) threshold
     && match peaks with
        | [] => true
        | _ => (2000 <? i - last peaks 0)%Z
        end
  then peaks ++ [i]
  else peaks.

Definition find_peaks (data : list R) : list Z :=
  fold_left (peak_step data) (stride_range (Z.of_nat (length data)) 1000) [].

Fixpoint intervals_of (peaks : list Z) : list Z :=
  match peaks with
  | a :: (b :: _) as rest => (b - a)%Z :: intervals_of rest
  | _ => []
  end.

(** [counts]: a JavaScript object keyed by whole numbers, which
    [Object.entries] lists in ascending key order (the keys stay below
    2^32 - 1); kept as an association list sorted by key. *)
Fixpoint counts_incr (q : Z) (counts : list (Z * Z)) : list (Z * Z) :=
  match counts with
  | [] => [(q, 1%Z)]
  | (k, c) :: rest =>
      if (q =? k)%Z then (k, (c + 1)%Z) :: rest
      else if (q <? k)%Z then (q, 1%Z) :: (k, c) :: rest
      else (k, c) :: counts_incr q rest
  end.

Definition quantize (int : Z) : Z := (Math_round (IZR int / 100) * 100)%Z.

Definition count_intervals (intervals : list Z) : list (Z * Z) :=
  fold_left (fun counts int => counts_incr (quantize int) counts) intervals [].

(** The scan for the modal bucket: the state is [(maxCount, bestInterval)]. *)
Definition mode_step (acc : Z * Z) (entry : Z * Z) : Z * Z :=
  let '(maxCount, bestInterval) := acc in
  let '(interval, count) := entry in
  if (maxCount <? count)%Z then (count, interval) else (maxCount, bestInterval).

Definition best_interval (counts : list (Z * Z)) : Z :=
  snd (fold_left mode_step counts (0%Z, 0%Z)).

(** The two folding loops.  They are [while] loops, so they take fuel;
    [None] is a loop that has not ended when the fuel runs out. *)
Fixpoint double_up (fuel : nat) (bpm : R) : option R :=
  if Rltb bpm 110 then
    match fuel with
    | O => None
    | S fuel' => double_up fuel' (bpm * 2)
    end
  else Some bpm.

Fixpoint halve_down (fuel : nat) (bpm : R) : option R :=
  if Rgtb bpm 155 then
    match fuel with
    | O => None
    | S fuel' => halve_down fuel' (bpm / 2)
    end
  else Some bpm.

Definition fold_fuel (sampleRate bestInterval : Z) : nat :=
  Z.to_nat (Z.log2_up (2 * bestInterval) + Z.log2_up sampleRate + 1).

Definition fold_bpm (sampleRate bestInterval : Z) : option Z :=
  let fuel := fold_fuel sampleRate bestInterval in
  let bpm := (60 * IZR sampleRate) / IZR bestInterval in
  match double_up fuel bpm with
  | None => None
  | Some bpm =>
      match halve_down fuel bpm with
      | None => None
      | Some bpm => Some (Math_round bpm)
      end
  end.

(** Everything after [startRendering]: from the filtered data to the BPM. *)
Definition bpm_of_rendered (sampleRate : Z) (data : list R) : option Z :=
  let peaks := find_peaks data in
  let intervals := intervals_of peaks in
  let counts := count_intervals intervals in
  let bestInterval := best_interval counts in
  if (bestInterval =? 0)%Z then Some 128%Z
  else fold_bpm sampleRate bestInterval.

(** ** audioUtils.ts: analyzeKeyReal *)

Definition NOTES : list string :=
  ["C"; "C#"; "D"; "D#"; "E"; "F"; "F#"; "G"; "G#"; "A"; "A#"; "B"]%string.

(** [NOTES[noteIndex] || "Unknown"]. *)
Definition note_name (noteIndex : Z) : string :=
  if (noteIndex <? 0)%Z then "Unknown"%string
  else nth (Z.to_nat noteIndex) NOTES "Unknown"%string.

(** Lines 258-261: from the fundamental frequency to the note name.
    [%] is JavaScript's remainder, which truncates. *)
Definition note_of_freq (freq : R) : string :=
  let noteNum := 12 * (ln (freq / 440) / ln 2) in
  let midi := (Math_round noteNum + 69)%Z in
  let noteIndex := Z.rem midi 12 in
  note_name noteIndex.

(** The inner loop: the correlation of the data with itself at a lag. *)
Definition correlation_at (data : list R) (offset : Z) : R :=
  fold_left
    (fun corr i => corr + typed_get data i * typed_get data (i + offset))
    (stride_range (Z.of_nat (length data) - offset) 20) 0.

(** The outer loop: the state is [(bestOffset, maxCorr)]. *)
Definition lag_step (data : list R) (acc : Z * R) (offset : Z) : Z * R :=
  let '(bestOffset, maxCorr) := acc in
  let corr := correlation_at data offset in
  if Rgtb corr maxCorr then (offset, corr) else (bestOffset, maxCorr).

Definition lags (sampleRate : Z) : list Z :=
  for_range (Math_floor (IZR sampleRate / 1000))
            (Math_floor (IZR sampleRate / 40)).

Definition best_offset (sampleRate : Z) (data : list R) : Z :=
  fst (fold_left (lag_step data) (lags sampleRate) ((-1)%Z, 0)).

(** Everything after [startRendering].  A lag of 0 makes [freq] infinite
    in JavaScript, [noteIndex] NaN, and the result "Unknown". *)
Definition key_of_rendered (sampleRate : Z) (data : list R) : string :=
  let bestOffset := best_offset sampleRate data in
  if (bestOffset =? -1)%Z then "Unknown"%string
  else if (bestOffset =? 0)%Z then "Unknown"%string
  else
    let freq := IZR sampleRate / IZR bestOffset in
    note_of_freq freq.

(** ** The offline renderer *)

Section OfflineRendering.

(** [renderLowpass frequency sampleRate length source]: the data of
    channel 0 after [startRendering] on a one-channel
    [OfflineAudioContext] of [length] frames at [sampleRate], whose
    source plays the channels [source] through a lowpass biquad filter
    at [frequency]; [None] when building or rendering the context
    throws.  The filter is the browser's. *)
Variable renderLowpass : R -> Z -> Z -> list (list R) -> option (list R).

(** [None] only if a folding loop never ends. *)
Definition detectBPM (buffer : AudioBuffer) : option Z :=
  if (sliceLength buffer <=? 0)%Z then Some 128%Z
  else
    match renderLowpass 150 (sampleRate buffer) (sliceLength buffer)
                        [sliceData buffer] with
    | None => Some 128%Z
    | Some data => bpm_of_rendered (sampleRate buffer) data
    end.

Definition analyzeKeyReal (buffer : AudioBuffer) : string :=
  let analysisLength :=
    Z.min (buffer_length buffer) (sampleRate buffer * 2) in
  match renderLowpass 1000 (sampleRate buffer) analysisLength
                      (channelData buffer) with
  | None => "Unknown"%string
  | Some data => key_of_rendered (sampleRate buffer) data
  end.

End OfflineRendering.

(** ** App: the settings surface and the graph parameters *)

(** The initial [useState] value. *)
Definition initialSettings : MasteringSettings :=
  mkMasteringSettings 0 (-0.1) 5 100 0 0 0 (-16) (-16) (-16).


(** [Partial<MasteringSettings>]: the arguments of an assistant's
    [update_mastering_settings] call; an absent field is [None]. *)
Definition SettingsArgs : Type := SettingKey -> option R.

(** [setSettings(prev => ({ ...prev, ...args }))]. *)
Definition applyArgs (args : SettingsArgs) (prev : MasteringSettings)
  : MasteringSettings :=
  let pick k := match args k with Some v => v | None => setting k prev end in
  mkMasteringSettings
    (pick InputGain) (pick LimiterCeiling) (pick Saturation)
    (pick StereoWidth) (pick EqLow) (pick EqMid) (pick EqHigh)
    (pick MbLowThreshold) (pick MbMidThreshold) (pick MbHighThreshold).

(** The values the graph's parameters are given: the targets of
    [setTargetAtTime] in the live graph (with the 50 ms constant), the
    initial [.value]s in [setupAudioGraph]. *)
Record GraphParams := mkGraphParams {
  inputGain_gain : R;
  lowShelf_gain : R;
  midPeaking_gain : R;
  highShelf_gain : R;
  saturation_curve : list R;
  sideGain_gain : R;
  mbLow_threshold : R;
  mbMid_threshold : R;
  mbHigh_threshold : R;
  limiter_threshold : R
}.

(** The settings effect (lines 96-126), when a graph is running. *)
Definition settingsEffect (s : MasteringSettings) : GraphParams :=
  mkGraphParams
    (Math_pow 10 (inputGain s / 20))
    (eqLow s)
    (eqMid s)
    (eqHigh s)
    (makeDistortionCurve (saturation s))
    (stereoWidth s / 100)
    (mbLowThreshold s)
    (mbMidThreshold s)
    (mbHighThreshold s)
    (limiterCeiling s).

(** The parameter values [setupAudioGraph] builds a graph with, live or
    offline. *)
Definition setupAudioGraph (settings : MasteringSettings) : GraphParams :=
  let inputGainNode_gain := Math_pow 10 (inputGain settings / 20) in
  let saturationNode_curve := makeDistortionCurve (saturation settings) in
  let lowShelf_gain := eqLow settings in
  let midPeaking_gain := eqMid settings in
  let highShelf_gain := eqHigh settings in
  let sideGain_gain := stereoWidth settings / 100 in
  let lowComp_threshold := mbLowThreshold settings in
  let midComp_threshold := mbMidThreshold settings in
  let highComp_threshold := mbHighThreshold settings in
  let limiter_threshold := limiterCeiling settings in
  mkGraphParams inputGainNode_gain lowShelf_gain midPeaking_gain
    highShelf_gain saturationNode_curve sideGain_gain lowComp_threshold
    midComp_threshold highComp_threshold limiter_threshold.

(** ** geminiService.ts: the assistant's tool declaration *)

(** The ranges the descriptions of [update_mastering_settings] give for
    its parameters ("Low shelf gain (-12 to 12 dB)" and so on).  The
    thresholds are not parameters of the tool. *)
Definition declared_range (key : SettingKey) : option (R * R) :=
  match key with
  | EqLow | EqMid | EqHigh => Some (-12, 12)
  | Saturation => Some (0, 100)
  | StereoWidth => Some (0, 200)
  | InputGain => Some (-12, 12)
  | LimiterCeiling => Some (-3, 0)
  | MbLowThreshold | MbMidThreshold | MbHighThreshold => None
  end.

(** ** Knob *)

(** The [Knob] component's [handleMouseMove]: the value it passes to
    [onChange] for a drag from [startY] to [clientY]. *)
Definition Knob_handleMouseMove (min max startValue startY clientY : R) : R :=
  let deltaY := startY - clientY in
  let range := max - min in
  let sensitivity := 200 in
  let deltaValue := (deltaY / sensitivity) * range in
  let newValue := startValue + deltaValue in
  Math_max min (Math_min max newValue).

(** The knobs [App] renders: the [min] and [max] props of the knob whose
    [onChange] is [updateSetting key].  The thresholds have no knob. *)
Definition knob_range (key : SettingKey) : option (R * R) :=
  match key with
  | EqLow | EqMid | EqHigh => Some (-12, 12)
  | Saturation => Some (0, 100)
  | StereoWidth => Some (0, 200)
  | InputGain => Some (-12, 12)
  | LimiterCeiling => Some (-3, 0)
  | MbLowThreshold | MbMidThreshold | MbHighThreshold => None
  end.

(** ** App: live metering ([updateTime]) *)

(** The shape of both [meterSmoothingRef.current] and [liveStats]. *)
Record MeterReading := mkMeterReading { meter_rms : R; meter_peak : R }.

(** The state and refs [updateTime] reads and writes. *)
Record Transport := mkTransport {
  isPlaying : bool;
  currentTime : R;
  startTimeRef : R;
  startOffsetRef : R;
  lastMeterUpdateRef : R;
  meterSmoothingRef : MeterReading;
  liveStats : MeterReading
}.

(** What one animation frame sees of the outside: the audio clock (if
    there is an audio context), the wall clock in ms, the loaded track's
    duration (if a track is loaded), and the analyser's time-domain buffer
    (if a graph is running). *)
Record Frame := mkFrame {
  audioTime : option R;
  performance_now : R;
  bufferDuration : option R;
  timeDomainData : option (list R)
}.

(** The scanning loop: [sumSquares] and [peak] over the buffer. *)
Definition scan_step (acc : R * R) (sample : R) : R * R :=
  let '(sumSquares, peak) := acc in
  (sumSquares + sample * sample,
   if Rgtb (Math_abs sample) peak then Math_abs sample else peak).

Definition scan (dataArray : list R) : R * R :=
  fold_left scan_step dataArray (0, 0).

Definition meterUpdate (dataArray : list R) (now : R) (t : Transport) : Transport :=
  let '(sumSquares, peak) := scan dataArray in
  let dbRMS :=
    20 * Math_log10
           (or_default (sqrt (sumSquares / INR (length dataArray))) 0.000001) in
  let dbPeak := 20 * Math_log10 (or_default peak 0.000001) in
  let alpha := 0.3 in
  let smoothed :=
    mkMeterReading
      (alpha * dbRMS + (1 - alpha) * meter_rms (meterSmoothingRef t))
      (Math_max dbPeak (0.1 * dbPeak + 0.9 * meter_peak (meterSmoothingRef t))) in
  mkTransport (isPlaying t) (currentTime t) (startTimeRef t) (startOffsetRef t)
    now smoothed
    (mkMeterReading (Math_max (-100) (meter_rms smoothed))
                    (Math_max (-100) (meter_peak smoothed))).

Definition handleStop (t : Transport) : Transport :=
  mkTransport false (currentTime t) (startTimeRef t) (startOffsetRef t)
    (lastMeterUpdateRef t) (meterSmoothingRef t) (liveStats t).

Definition setCurrentTime (time : R) (t : Transport) : Transport :=
  mkTransport (isPlaying t) time (startTimeRef t) (startOffsetRef t)
    (lastMeterUpdateRef t) (meterSmoothingRef t) (liveStats t).

Definition track_ended (f : Frame) (actualTime : R) : bool :=
  match bufferDuration f with
  | Some d => Rleb d actualTime
  | None => false
  end.

(** One run of [updateTime]. *)
Definition updateTime (f : Frame) (t : Transport) : Transport :=
  match isPlaying t, audioTime f with
  | true, Some audioContext_currentTime =>
      let elapsed := audioContext_currentTime - startTimeRef t in
      let actualTime := startOffsetRef t + elapsed in
      if track_ended f actualTime then handleStop t
      else
        let t := setCurrentTime actualTime t in
        match timeDomainData f with
        | Some dataArray =>
            let now := performance_now f in
            if Rgtb (now - lastMeterUpdateRef t) 50
            then meterUpdate dataArray now t
            else t
        | None => t
        end
  | _, _ => t
  end.

(** ** App: staging the settings after the analysis *)

(** Lines 176-185 of [handleFileUpload]: the settings it stores once the
    track is analysed, from the statistics and the settings in force. *)
Definition handleFileUpload_settings (trackStats : AudioStats)
           (settings : MasteringSettings) : MasteringSettings :=
  let newSettings_inputGain :=
    if Rltb (peak trackStats) (-6) then Math_min 6 (-3 - peak trackStats)
    else if Rgtb (peak trackStats) (-0.5) then -1.0
    else inputGain settings in
  mkMasteringSettings
    newSettings_inputGain
    (limiterCeiling settings) (saturation settings) (stereoWidth settings)
    (eqLow settings) (eqMid settings) (eqHigh settings)
    (IZR (Math_floor (rms trackStats - 2)))
    (IZR (Math_floor (rms trackStats)))
    (IZR (Math_floor (rms trackStats + 1))).

(** ** App: the mid/side matrix of the graph *)

(** Lines 239-290 of [setupAudioGraph] on one frame.  [left] and [right]
    are the splitter's outputs 0 and 1, [width] is the gain of [sideGain],
    and the result is what arrives at the merger's inputs 0 and 1.  A gain
    node multiplies by its gain; connections into one input add up. *)
Definition stereo_matrix (width left right : R) : R * R :=
  let sumL := 0.5 * left in
  let sumR := 0.5 * right in
  let diffL := 0.5 * left in
  let diffR := -0.5 * right in
  let midSignal := sumL + sumR in
  let sideSignal := diffL + diffR in
  let sideGain := width * sideSignal in
  let outL_Mid := 1 * midSignal in
  let outL_Side := 1 * sideGain in
  let outR_Mid := 1 * midSignal in
  let outR_Side := -1 * sideGain in
  (outL_Mid + outL_Side, outR_Mid + outR_Side).

(** ** App: the transport *)

(** [playAudio]: nothing without an audio context or a loaded track;
    otherwise the source is started at [offset] and the two refs
    remember when and where. *)
Definition playAudio (f : Frame) (offset : R) (t : Transport) : Transport :=
  match audioTime f, bufferDuration f with
  | Some ctx_currentTime, Some _ =>
      mkTransport true (currentTime t) ctx_currentTime offset
        (lastMeterUpdateRef t) (meterSmoothingRef t) (liveStats t)
  | _, _ => t
  end.

Definition togglePlayback (f : Frame) (t : Transport) : Transport :=
  if isPlaying t then handleStop t else playAudio f (currentTime t) t.

Definition handleSeek (f : Frame) (time : R) (t : Transport) : Transport :=
  let t' :=
    mkTransport (isPlaying t) time (startTimeRef t) time
      (lastMeterUpdateRef t) (meterSmoothingRef t) (liveStats t) in
  if isPlaying t then playAudio f time t' else t'.

(** [jumpBars]: eight bars of four beats at the detected tempo.  [bpm] is
    the [bpm] state, [stats] the [stats] state ([None] for [null]). *)
Definition jumpBars (f : Frame) (bpm : Z) (stats : option AudioStats)
           (direction : Z) (t : Transport) : Transport :=
  if (bpm =? 0)%Z then t
  else
    let jumpTime := (60 / IZR bpm) * 4 * 8 in
    let newTime := currentTime t + jumpTime * IZR direction in
    let stats_duration_or_0 :=
      match stats with
      | Some s => or_default (stats_duration s) 0
      | None => 0
      end in
    handleSeek f (Math_max 0 (Math_min stats_duration_or_0 newTime)) t.

(** ** App: what the monitor shows *)

(** [formatTime].  [%] on numbers is the remainder of the truncated
    division; [toString] of a whole number (below 10^21, where JavaScript
    changes to the exponent form) is its decimal numeral;
    [padStart(2, '0')] fills up to two characters. *)
Definition js_rem (x y : R) : R := x - y * IZR (truncate (x / y)).

Definition Number_toString (z : Z) : string :=
  NilZero.string_of_int (Z.to_int z).

Definition padStart2 (s : string) : string :=
  match String.length s with
  | 0%nat => ("00" ++ s)%string
  | 1%nat => ("0" ++ s)%string
  | _ => s
  end.

Definition formatTime (time : R) : string :=
  let m := Math_floor (time / 60) in
  let s := Math_floor (js_rem time 60) in
  (padStart2 (Number_toString m) ++ ":" ++ padStart2 (Number_toString s))%string.

(** [displayRms] and [displayPeak] (lines 527-528). *)
Definition displayRms (t : Transport) (stats : option AudioStats) : R :=
  if isPlaying t then meter_rms (liveStats t)
  else match stats with Some s => rms s | None => -100 end.

Definition displayPeak (t : Transport) (stats : option AudioStats) : R :=
  if isPlaying t then meter_peak (liveStats t)
  else match stats with Some s => peak s | None => -100 end.

(** The widths of the two bars, in percent (lines 603-607). *)
Definition energy_width (displayRms : R) : R :=
  if Rgtb displayRms (-100) then Math_min 100 ((displayRms + 60) * 2) else 0.

Definition peak_width (displayPeak : R) : R :=
  if Rgtb displayPeak (-100) then Math_min 100 ((displayPeak + 60) * 1.8) else 0.

(** The verdict under the score ring (line 617), and the ring's dash
    offset (line 614). *)
Definition mix_health (score : Z) : string :=
  if (80 <? score)%Z then "Club Ready"%string else "Needs Work"%string.

Definition strokeDashoffset (score : Z) : R := 175 - (175 * IZR score) / 100.

(** ** Knob: the pointer's angle *)

(** Lines 749-750. *)
Definition Knob_percentage (min max value : R) : R := (value - min) / (max - min).

Definition Knob_rotation (min max value : R) : R :=
  -135 + Knob_percentage min max value * 270.

(** ** Visualizer: the playhead and the click *)

(** The x coordinate of the playhead on a canvas [canvas_width] wide. *)
Definition Visualizer_progressWidth (canvas_width currentTime duration : R) : R :=
  let progressRatio := currentTime / or_default duration 1 in
  canvas_width * progressRatio.

(** [handleClick] on the mounted canvas: the time handed to [onSeek],
    [None] when the handler returns without calling it. *)
Definition Visualizer_handleClick (duration clientX rect_left rect_width : R)
  : option R :=
  if Req_dec_T duration 0 then None
  else
    let x := clientX - rect_left in
    let ratio := x / rect_width in
    let newTime := ratio * duration in
    Some newTime.

(** ** App: the assistant's function calls *)

Inductive PlaybackAction := play | pause.

Inductive Direction := forward | backward.

(** A function call of the assistant's response, by its [name]; any
    other name is [other_call]. *)
Inductive FunctionCall :=
| update_mastering_settings (args : SettingsArgs)
| playback_control (action : PlaybackAction)
| navigation_control (direction : Direction)
| other_call.

(** The settings after the loop over [response.functionCalls]
    (lines 496-511): every [update_mastering_settings] call queues one
    [setSettings(prev => ({ ...prev, ...args }))]. *)
Definition handleChatSubmit_settings (functionCalls : list FunctionCall)
           (prev : MasteringSettings) : MasteringSettings :=
  fold_left
    (fun prev call =>
       match call with
       | update_mastering_settings args => applyArgs args prev
       | _ => prev
       end)
    functionCalls prev.

(** ** Visualizer: the cached waveform *)

Definition Math_ceil (x : R) : Z := Zceil x.

(** Reading a typed array where [undefined] matters: [None] outside the
    array.  A comparison with [undefined] is false. *)
Definition typed_read (data : list R) (i : Z) : option R :=
  if (i <? 0)%Z then None else nth_error data (Z.to_nat i).

(** The canvas is 800 by 120. *)
Definition waveform_step (data : list R) : Z :=
  Math_ceil (IZR (Z.of_nat (length data)) / IZR 800).

(** The inner loop's body: the state is [(min, max)]. *)
Definition extrema_step (data : list R) (base : Z) (acc : R * R) (j : Z)
  : R * R :=
  let '(min, max) := acc in
  match typed_read data (base + j) with
  | Some datum =>
      (if Rltb datum min then datum else min,
       if Rgtb datum max then datum else max)
  | None => (min, max)
  end.

Definition waveform_column (data : list R) (i : Z) : R * R :=
  let step := waveform_step data in
  fold_left (extrema_step data (i * step)) (for_range 0 step) (1.0, -1.0).

(** The arguments of [fillRect] for column [i]: x, y, width, height. *)
Definition waveform_rect (data : list R) (i : Z) : R * R * R * R :=
  let '(min, max) := waveform_column data i in
  let amp := 120 / 2 in
  let yMin := (1 + min) * amp in
  let yMax := (1 + max) * amp in
  (IZR i, yMin, 1, yMax - yMin).

(** * Part II: vocabulary of the statements *)

(** ** The specification's wording *)

(** The rubric as the specification words it: 100 minus the sum of the
    penalties that apply, clamped to [0,100]. *)
Definition penalty (applies : bool) (points : Z) : Z :=
  if applies then points else 0%Z.

Definition score_rubric (stats : AudioStats) : Z :=
  let penalties :=
    (penalty (Rgtb (peak stats) (-0.1)) 30
     + penalty (Rltb (crestFactor stats) 4) 20
     + penalty (Rgtb (crestFactor stats) 15) 15
     + penalty (Rltb (stereoCorrelation stats) 0) 40
     + penalty (Rgtb (stereoCorrelation stats) 0.95) 10)%Z in
  Z.max 0 (Z.min 100 (100 - penalties)).

(** The transfer function the table samples. *)
Definition soft_clip (k x : R) : R := (2 / PI) * atan (x * (1 + k / 10)).

(** The container as the specification describes it.  First the 44-byte
    header: "RIFF", the size of what follows, "WAVE", "fmt ", 16, format
    tag 1, channel count, sample rate, byte rate, block align, 16 bits
    per sample, "data", data length. *)
Definition wave_header (numOfChan sampleRate len : Z) : list Z :=
  le_bytes32 0x46464952
  ++ le_bytes32 (36 + len * numOfChan * 2)
  ++ le_bytes32 0x45564157
  ++ le_bytes32 0x20746d66
  ++ le_bytes32 16
  ++ le_bytes16 1
  ++ le_bytes16 numOfChan
  ++ le_bytes32 sampleRate
  ++ le_bytes32 (sampleRate * 2 * numOfChan)
  ++ le_bytes16 (numOfChan * 2)
  ++ le_bytes16 16
  ++ le_bytes32 0x61746164
  ++ le_bytes32 (len * numOfChan * 2).

(** One frame: each channel's sample, clamped and scaled, as two bytes,
    least significant first. *)
Definition frame_bytes (abuffer : AudioBuffer) (frame : Z) : list Z :=
  flat_map
    (fun i => le_bytes16 (encode_sample
                            (typed_get (getChannelData abuffer i) frame)))
    (seq 0 (numberOfChannels abuffer)).

(** The header, then frames 0 to [len - 1] in order. *)
Definition wave_spec (abuffer : AudioBuffer) (len : Z) : list Z :=
  wave_header (Z.of_nat (numberOfChannels abuffer)) (sampleRate abuffer) len
  ++ flat_map (frame_bytes abuffer) (for_range 0 len).



(** ** Vocabulary of the model *)


(** Whether this run of [updateTime] publishes a reading ([setLiveStats]). *)
Definition publishes (f : Frame) (t : Transport) : bool :=
  isPlaying t
  && match audioTime f with
     | Some now => negb (track_ended f (startOffsetRef t + (now - startTimeRef t)))
     | None => false
     end
  && match timeDomainData f with
     | Some _ => Rgtb (performance_now f - lastMeterUpdateRef t) 50
     | None => false
     end.

(** A reading floored at -100 dB, and the reading after a reset. *)
Definition meter_floor (m : MeterReading) : MeterReading :=
  mkMeterReading (Rmax (-100) (meter_rms m)) (Rmax (-100) (meter_peak m)).

Definition meter_reset : MeterReading := mkMeterReading (-100) (-100).

(** ** Invariants and abbreviations of the proofs *)

(** The note number before rounding. *)
Definition noteNum_of (freq : R) : R := 12 * (ln (freq / 440) / ln 2).

(** Peaks more than 2000 samples apart; a histogram whose keys are all
    positive. *)
Definition spaced (peaks : list Z) : Prop :=
  Forall (fun d => (2000 < d)%Z) (intervals_of peaks).

Definition keys_pos (counts : list (Z * Z)) : Prop :=
  Forall (fun entry => (0 < fst entry)%Z) counts.

(** The writer while the samples go in: the header, the sample bytes
    written so far, and the zeros not yet overwritten. *)
Definition filling (header written : list Z) (zeros : nat) (p : Z) : Writer :=
  mkWriter (header ++ written ++ repeat 0%Z zeros) p
           (Z.of_nat (length written)).

(** ** Sample inputs *)

(** The statistics of the specification's score scenario. *)
Definition scenario_stats : AudioStats :=
  mkAudioStats 180 44100 2 (-3.05) (-0.05) 3 0.5 0.5 0.5 0.2 (-0.2).

(** A mono buffer of 45 frames at 44.1 kHz: full scale up in frame 0,
    full scale down in frame 44, silence between. *)
Definition click_track : AudioBuffer :=
  mkAudioBuffer 44100 [[1] ++ repeat 0 43 ++ [-1]].

(** A mono buffer of two frames at 44.1 kHz. *)
Definition mono_blip : AudioBuffer := mkAudioBuffer 44100 [[0.5; -0.5]].

(** One minute of silence at 44.1 kHz, mono. *)
Definition one_minute : AudioBuffer :=
  mkAudioBuffer 44100 [repeat 0 (Z.to_nat 2646000)].

(** 52002 frames at 44.1 kHz, silent except for three unit pulses 13000
    frames apart in the second half (about 203.5 beats per minute). *)
Definition kick (i : Z) : R :=
  if ((i =? 26001) || (i =? 39001) || (i =? 52001))%Z then 1 else 0.

Definition kick_track : AudioBuffer :=
  mkAudioBuffer 44100 [map kick (for_range 0 52002)].

(** A renderer whose filter lets the first source channel through
    unchanged. *)
Definition pass_through : R -> Z -> Z -> list (list R) -> option (list R) :=
  fun _ _ _ source => Some (hd [] source).

(** A renderer that always throws. *)
Definition render_fails : R -> Z -> Z -> list (list R) -> option (list R) :=
  fun _ _ _ _ => None.

(** An assistant call that sets only the input gain, to 20 dB. *)
Definition args_gain_20 : SettingsArgs :=
  fun key => match key with InputGain => Some 20 | _ => None end.

(** An animation frame one second into a three-minute track, 100 ms
    after the last meter update, with a silent analysis buffer of 2048
    samples; and the transport just after a reset. *)
Definition silent_frame : Frame :=
  mkFrame (Some 1) 100 (Some 180) (Some (repeat 0 (Z.to_nat 2048))).

Definition playing_after_reset : Transport :=
  mkTransport true 0 0 0 0 (mkMeterReading (-100) (-100))
    (mkMeterReading (-100) (-100)).

(** ** Reading the container back *)

(** [DataView.getUint16]/[getUint32] with the little-endian flag: the
    number a list of bytes stands for, least significant byte first; and
    [getInt16]'s reading of a 16-bit number as a signed one. *)
Fixpoint le_value (bytes : list Z) : Z :=
  match bytes with
  | [] => 0%Z
  | b :: rest => (b + 256 * le_value rest)%Z
  end.

Definition as_int16 (u : Z) : Z := if (u <? 32768)%Z then u else (u - 65536)%Z.

Definition is_byte (b : Z) : Prop := (0 <= b < 256)%Z.


(** The accumulators at the end of the loop. *)
Definition stats_acc (buffer : AudioBuffer) : StatsAcc :=
  let left := getChannelData buffer 0 in
  let right :=
    if (1 <? numberOfChannels buffer)%nat then getChannelData buffer 1
    else left in
  fold_left (stats_step left right (actualStart buffer))
            (for_range (actualStart buffer) (analysisEnd buffer))
            stats_init.


(** ** Reading the histogram *)

(** [counts[q] || 0], and the number of times [q] occurs in a list. *)
Fixpoint count_of (counts : list (Z * Z)) (q : Z) : Z :=
  match counts with
  | [] => 0%Z
  | (k, c) :: rest => ((if (q =? k)%Z then c else 0) + count_of rest q)%Z
  end.

Definition occurrences (q : Z) (l : list Z) : Z :=
  Z.of_nat (count_occ Z.eq_dec l q).

(** The keys in the order [Object.entries] lists them, and no empty
    bucket. *)
Definition counts_ok (counts : list (Z * Z)) : Prop :=
  StronglySorted Z.lt (map fst counts) /\
  Forall (fun entry => (1 <= snd entry)%Z) counts.


(** ** A gain in front of the analysis *)




(** ** Sample states of the transport *)

(** A paused transport 12.5 s into the track, and the frames at which
    playback is resumed (audio clock at 40 s) and later looked at (audio
    clock at 43 s), with a three-minute track loaded and no analyser. *)
Definition paused_at_12 : Transport :=
  mkTransport false 12.5 0 0 0 (mkMeterReading (-100) (-100))
    (mkMeterReading (-100) (-100)).

Definition frame_at (now : R) : Frame := mkFrame (Some now) 0 (Some 180) None.

(** ** The meters *)



(** ** The assistant's calls *)

(** Whether a call is an [update_mastering_settings] call that carries
    the field [key]. *)
Definition mentions (key : SettingKey) (call : FunctionCall) : bool :=
  match call with
  | update_mastering_settings args =>
      match args key with Some _ => true | None => false end
  | _ => false
  end.

(** Two calls of one response: the first asks for 20 dB of input gain,
    the second for a low shelf gain of 3 dB. *)
Definition args_low_3 : SettingsArgs :=
  fun key => match key with EqLow => Some 3 | _ => None end.

Definition two_calls : list FunctionCall :=
  [update_mastering_settings args_gain_20; playback_control play;
   update_mastering_settings args_low_3].

(** * Part III: properties *)

(** ** Numbers and loops *)

Lemma Rltb_true x y : Rltb x y = true <-> x < y.
Proof. unfold Rltb; destruct (Rlt_dec x y); split; intros; auto; discriminate. Qed.

Lemma Rltb_false x y : Rltb x y = false <-> y <= x.
Proof.
  unfold Rltb; destruct (Rlt_dec x y); split; intros; auto; try discriminate; lra.
Qed.

Lemma Rgtb_true x y : Rgtb x y = true <-> x > y.
Proof. unfold Rgtb; destruct (Rgt_dec x y); split; intros; auto; discriminate. Qed.

Lemma Rgtb_false x y : Rgtb x y = false <-> x <= y.
Proof.
  unfold Rgtb; destruct (Rgt_dec x y); split; intros; auto; try discriminate; lra.
Qed.

Lemma Rleb_true x y : Rleb x y = true <-> x <= y.
Proof. unfold Rleb; destruct (Rle_dec x y); split; intros; auto; discriminate. Qed.

Lemma Rleb_false x y : Rleb x y = false <-> y < x.
Proof.
  unfold Rleb; destruct (Rle_dec x y); split; intros; auto; try discriminate; lra.
Qed.

Lemma Math_floor_IZR z : Math_floor (IZR z) = z.
Proof. apply ZfloorZ. Qed.

Lemma Math_round_IZR z : Math_round (IZR z) = z.
Proof. apply Zfloor_eq. lra. Qed.

Lemma Math_round_lower (z : Z) x : IZR z <= x + / 2 -> (z <= Math_round x)%Z.
Proof. intros H. apply Zfloor_lub. exact H. Qed.

Lemma Math_round_add_IZR x n : Math_round (x + IZR n) = (Math_round x + n)%Z.
Proof.
  unfold Math_round.
  replace (x + IZR n + / 2) with (x + / 2 + IZR n) by lra.
  apply Zfloor_addz.
Qed.

Lemma truncate_IZR z : truncate (IZR z) = z.
Proof.
  unfold truncate. destruct (Rltb (IZR z) 0).
  - apply Zceil_eq. lra.
  - apply ZfloorZ.
Qed.

Lemma floor_half (n : Z) : Zfloor (IZR n / 2) = (n / 2)%Z.
Proof.
  apply Zfloor_eq.
  pose proof (Z.div_mod n 2 ltac:(lia)) as Hdm.
  pose proof (Z.mod_pos_bound n 2 ltac:(lia)) as [Hr0 Hr1].
  assert (Hn : IZR n = 2 * IZR (n / 2) + IZR (n mod 2)).
  { rewrite Hdm at 1. rewrite plus_IZR, mult_IZR. reflexivity. }
  apply IZR_le in Hr0.
  assert (Hr1' : IZR (n mod 2) <= 1) by (apply IZR_le; lia).
  lra.
Qed.

Lemma or_default_zero d : or_default 0 d = d.
Proof. unfold or_default; destruct (Req_dec_T 0 0); congruence. Qed.

Lemma or_default_nonzero x d : x <> 0 -> or_default x d = x.
Proof. unfold or_default; destruct (Req_dec_T x 0); congruence. Qed.

Lemma ln_2_pos : 0 < ln 2.
Proof. pose proof ln_lt_2. lra. Qed.

Lemma ln_10_pos : 0 < ln 10.
Proof. rewrite <- ln_1. apply ln_increasing; lra. Qed.

Lemma ln_monotone x y : 0 < x -> x <= y -> ln x <= ln y.
Proof.
  intros Hx [Hlt | ->]; [left; apply ln_increasing; assumption | apply Rle_refl].
Qed.

Lemma Math_log10_millionth : Math_log10 0.000001 = -6.
Proof.
  unfold Math_log10.
  replace 0.000001 with (/ (10 ^ 6)) by lra.
  rewrite ln_Rinv by (apply pow_lt; lra).
  rewrite ln_pow by lra.
  replace (INR 6) with 6 by (simpl; lra).
  pose proof ln_10_pos. field. lra.
Qed.

Lemma two_over_PI_pos : 0 < 2 / PI.
Proof. apply Rdiv_lt_0_compat; [lra | apply PI_RGT_0]. Qed.

Lemma atan_monotone x y : x <= y -> atan x <= atan y.
Proof.
  intros [Hlt | Heq].
  - left; apply atan_increasing; exact Hlt.
  - subst; apply Rle_refl.
Qed.

Lemma nth_map_seq {A : Type} (f : nat -> A) (n i : nat) (d : A) :
  (i < n)%nat -> nth i (map f (seq 0 n)) d = f i.
Proof.
  intros Hi.
  rewrite (nth_indep _ d (f 0%nat)) by (rewrite length_map, length_seq; lia).
  rewrite (map_nth f (seq 0 n) 0%nat i), seq_nth by lia.
  reflexivity.
Qed.

Lemma fold_left_cons {A B : Type} (f : A -> B -> A) x l a :
  fold_left f (x :: l) a = fold_left f l (f a x).
Proof. reflexivity. Qed.

Lemma In_for_range lo hi i :
  In i (for_range lo hi) <-> (lo <= i < hi)%Z.
Proof.
  unfold for_range. rewrite in_map_iff. split.
  - intros (k & <- & Hk). apply in_seq in Hk. lia.
  - intros Hi. exists (Z.to_nat (i - lo)). split; [lia|].
    apply in_seq. lia.
Qed.

Lemma length_for_range lo hi :
  Z.of_nat (length (for_range lo hi)) = Z.max 0 (hi - lo).
Proof. unfold for_range. rewrite length_map, length_seq. lia. Qed.

Lemma for_range_cons lo hi :
  (lo < hi)%Z -> for_range lo hi = lo :: for_range (lo + 1) hi.
Proof.
  intros Hlt. unfold for_range.
  replace (Z.to_nat (hi - lo)) with (S (Z.to_nat (hi - (lo + 1)))) by lia.
  cbn [seq map]. f_equal; [lia|].
  rewrite <- seq_shift, map_map.
  apply map_ext. intros k. lia.
Qed.

Lemma for_range_nil lo hi : (hi <= lo)%Z -> for_range lo hi = [].
Proof.
  intros Hle. unfold for_range.
  replace (Z.to_nat (hi - lo)) with 0%nat by lia. reflexivity.
Qed.

Lemma typed_get_map_for_range (f : Z -> R) lo hi i :
  (0 <= i < hi - lo)%Z ->
  typed_get (map f (for_range lo hi)) i = f (lo + i)%Z.
Proof.
  intros Hi. unfold typed_get, for_range.
  destruct (i <? 0)%Z eqn:Hneg; [apply Z.ltb_lt in Hneg; lia|].
  rewrite map_map, nth_map_seq by lia.
  f_equal. lia.
Qed.

(** ** bufferToWave *)

Lemma view_set_fill filled bytes n p :
  p = Z.of_nat (length filled) ->
  view_set (filled ++ repeat 0%Z (length bytes + n)) p bytes =
  Some (filled ++ bytes ++ repeat 0%Z n).
Proof.
  intros ->. unfold view_set.
  rewrite length_app, repeat_length.
  replace ((Z.of_nat (length filled) <? 0)
           || (Z.of_nat (length filled + (length bytes + n))
               <? Z.of_nat (length filled) + Z.of_nat (length bytes)))%Z
    with false
    by (symmetry; apply orb_false_iff; split; apply Z.ltb_ge; lia).
  rewrite Nat2Z.id.
  rewrite firstn_app, Nat.sub_diag, firstn_all, firstn_O, app_nil_r.
  rewrite skipn_app, skipn_all2 by lia.
  replace (length filled + length bytes - length filled)%nat
    with (length bytes) by lia.
  rewrite repeat_app, skipn_app, repeat_length, Nat.sub_diag, skipn_O.
  rewrite skipn_all2 by (rewrite repeat_length; lia).
  reflexivity.
Qed.

Lemma setUint32_fill filled n o d :
  setUint32 d (mkWriter (filled ++ repeat 0%Z (4 + n))
                        (Z.of_nat (length filled)) o) =
  Some (mkWriter ((filled ++ le_bytes32 d) ++ repeat 0%Z n)
                 (Z.of_nat (length (filled ++ le_bytes32 d))) o).
Proof.
  unfold setUint32. cbn [view pos offset].
  rewrite (view_set_fill filled (le_bytes32 d) n) by reflexivity.
  rewrite <- app_assoc, length_app. cbn [length le_bytes32].
  do 2 f_equal. lia.
Qed.

Lemma setUint16_fill filled n o d :
  setUint16 d (mkWriter (filled ++ repeat 0%Z (2 + n))
                        (Z.of_nat (length filled)) o) =
  Some (mkWriter ((filled ++ le_bytes16 d) ++ repeat 0%Z n)
                 (Z.of_nat (length (filled ++ le_bytes16 d))) o).
Proof.
  unfold setUint16. cbn [view pos offset].
  rewrite (view_set_fill filled (le_bytes16 d) n) by reflexivity.
  rewrite <- app_assoc, length_app. cbn [length le_bytes16].
  do 2 f_equal. lia.
Qed.

Lemma write_header_fresh numOfChan sampleRate len m :
  write_header numOfChan sampleRate (len * numOfChan * 2 + 44)
               (mkWriter (repeat 0%Z (44 + m)) 0 0) =
  Some (mkWriter (wave_header numOfChan sampleRate len ++ repeat 0%Z m) 44 0).
Proof.
  unfold write_header. cbn [and_then].
  change (mkWriter (repeat 0%Z (44 + m)) 0 0)
    with (mkWriter ([] ++ repeat 0%Z (4 + (40 + m))) (Z.of_nat (length (@nil Z))) 0).
  rewrite setUint32_fill. cbn [and_then].
  change (40 + m)%nat with (4 + (36 + m))%nat.
  rewrite setUint32_fill. cbn [and_then].
  change (36 + m)%nat with (4 + (32 + m))%nat.
  rewrite setUint32_fill. cbn [and_then].
  change (32 + m)%nat with (4 + (28 + m))%nat.
  rewrite setUint32_fill. cbn [and_then].
  change (28 + m)%nat with (4 + (24 + m))%nat.
  rewrite setUint32_fill. cbn [and_then].
  change (24 + m)%nat with (2 + (22 + m))%nat.
  rewrite setUint16_fill. cbn [and_then].
  change (22 + m)%nat with (2 + (20 + m))%nat.
  rewrite setUint16_fill. cbn [and_then].
  change (20 + m)%nat with (4 + (16 + m))%nat.
  rewrite setUint32_fill. cbn [and_then].
  change (16 + m)%nat with (4 + (12 + m))%nat.
  rewrite setUint32_fill. cbn [and_then].
  change (12 + m)%nat with (2 + (10 + m))%nat.
  rewrite setUint16_fill. cbn [and_then].
  change (10 + m)%nat with (2 + (8 + m))%nat.
  rewrite setUint16_fill. cbn [and_then].
  change (8 + m)%nat with (4 + (4 + m))%nat.
  rewrite setUint32_fill. cbn [and_then pos].
  rewrite setUint32_fill.
  cbn [app length le_bytes32 le_bytes16 Z.of_nat Pos.of_succ_nat Pos.succ].
  unfold wave_header. cbn [app le_bytes32 le_bytes16].
  replace (len * numOfChan * 2 + 44 - 8)%Z
    with (36 + len * numOfChan * 2)%Z by lia.
  replace (len * numOfChan * 2 + 44 - 40 - 4)%Z
    with (len * numOfChan * 2)%Z by lia.
  reflexivity.
Qed.

Lemma write_sample_fill abuffer header written zeros p i :
  length header = 44%nat ->
  write_sample abuffer (filling header written (2 + zeros) p) i =
  Some (filling header
          (written
           ++ le_bytes16 (encode_sample
                            (typed_get (getChannelData abuffer i) p)))
          zeros p).
Proof.
  intros Hh. unfold write_sample, filling. cbn [view pos offset].
  rewrite app_assoc.
  rewrite (view_set_fill (header ++ written) (le_bytes16 _) zeros)
    by (rewrite length_app; lia).
  rewrite <- !app_assoc, length_app. cbn [length le_bytes16].
  do 2 f_equal. lia.
Qed.

Lemma write_channels_fill abuffer header p chans : forall written zeros,
  length header = 44%nat ->
  fold_left (fun w i => w >>= (fun w => write_sample abuffer w i)) chans
            (Some (filling header written (2 * length chans + zeros) p)) =
  Some (filling header
          (written
           ++ flat_map
                (fun i => le_bytes16
                            (encode_sample
                               (typed_get (getChannelData abuffer i) p)))
                chans)
          zeros p).
Proof.
  induction chans as [|i chans IH]; intros written zeros Hh.
  - cbn [fold_left flat_map length]. rewrite app_nil_r. reflexivity.
  - cbn [fold_left flat_map and_then].
    replace (2 * length (i :: chans) + zeros)%nat
      with (2 + (2 * length chans + zeros))%nat by (cbn [length]; lia).
    rewrite write_sample_fill by exact Hh.
    rewrite IH by exact Hh. rewrite <- app_assoc. reflexivity.
Qed.

Lemma write_frame_fill abuffer header written zeros p :
  length header = 44%nat ->
  write_frame abuffer (numberOfChannels abuffer)
              (filling header written
                       (2 * numberOfChannels abuffer + zeros) p) =
  Some (filling header (written ++ frame_bytes abuffer p) zeros (p + 1)).
Proof.
  intros Hh. unfold write_frame.
  pose proof (write_channels_fill abuffer header p
                (seq 0 (numberOfChannels abuffer)) written zeros Hh) as H.
  rewrite length_seq in H. rewrite H. reflexivity.
Qed.

Lemma write_frames_fill abuffer header (rounds : list Z) :
  forall written zeros p,
  length header = 44%nat ->
  fold_left (fun w _ => w >>= write_frame abuffer (numberOfChannels abuffer))
            rounds
            (Some (filling header written
                     (2 * numberOfChannels abuffer * length rounds + zeros) p))
  = Some (filling header
            (written
             ++ flat_map (frame_bytes abuffer)
                         (for_range p (p + Z.of_nat (length rounds))))
            zeros (p + Z.of_nat (length rounds))).
Proof.
  induction rounds as [|r rounds IH]; intros written zeros p Hh.
  - cbn [fold_left length]. rewrite for_range_nil by lia.
    cbn [flat_map]. rewrite app_nil_r, Nat.mul_0_r, Z.add_0_r. reflexivity.
  - cbn [fold_left and_then].
    replace (2 * numberOfChannels abuffer * length (r :: rounds) + zeros)%nat
      with (2 * numberOfChannels abuffer
            + (2 * numberOfChannels abuffer * length rounds + zeros))%nat
      by (cbn [length]; lia).
    rewrite write_frame_fill by exact Hh.
    rewrite IH by exact Hh.
    rewrite (for_range_cons p) by (cbn [length]; lia).
    cbn [flat_map]. rewrite <- app_assoc.
    replace (p + 1 + Z.of_nat (length rounds))%Z
      with (p + Z.of_nat (length (r :: rounds)))%Z by (cbn [length]; lia).
    reflexivity.
Qed.

Lemma wave_header_length numOfChan sampleRate len :
  length (wave_header numOfChan sampleRate len) = 44%nat.
Proof. reflexivity. Qed.

(** What [bufferToWave] writes: the header, then the frames from 44 on
    (the sample loop starts with [pos] where the header left it), then
    zeros where the last frames should be. *)
Lemma bufferToWave_bytes abuffer len :
  (0 <= len)%Z ->
  bufferToWave abuffer len =
  Some (wave_header (Z.of_nat (numberOfChannels abuffer))
                    (sampleRate abuffer) len
        ++ flat_map (frame_bytes abuffer) (for_range 44 len)
        ++ repeat 0%Z (2 * numberOfChannels abuffer
                       * Z.to_nat (Z.min 44 len))).
Proof.
  intros Hlen. unfold bufferToWave. cbv zeta.
  set (nc := numberOfChannels abuffer).
  unfold ArrayBuffer_new.
  replace (len * Z.of_nat nc * 2 + 44 <? 0)%Z with false
    by (symmetry; apply Z.ltb_ge; nia).
  set (rounds := Z.to_nat (len - 44)).
  set (rest := (2 * nc * Z.to_nat (Z.min 44 len))%nat).
  replace (Z.to_nat (len * Z.of_nat nc * 2 + 44))
    with (44 + (2 * nc * rounds + rest))%nat by (unfold rounds, rest; nia).
  rewrite write_header_fresh. cbn [and_then].
  unfold write_frames. cbn [pos].
  set (header := wave_header (Z.of_nat nc) (sampleRate abuffer) len).
  change (mkWriter (header ++ repeat 0%Z (2 * nc * rounds + rest)) 44 0)
    with (filling header [] (2 * nc * rounds + rest) 44).
  replace rounds with (length (for_range 44 len)) at 1
    by (unfold rounds, for_range; rewrite length_map, length_seq; reflexivity).
  unfold nc at 1 2.
  rewrite write_frames_fill by reflexivity.
  unfold filling. cbn [view app].
  replace (for_range 44 (44 + Z.of_nat (length (for_range 44 len))))
    with (for_range 44 len); [reflexivity|].
  rewrite length_for_range. unfold for_range. do 2 f_equal. lia.
Qed.

Lemma bufferToWave_length abuffer len bytes :
  (0 <= len)%Z ->
  bufferToWave abuffer len = Some bytes ->
  Z.of_nat (length bytes) =
  (44 + len * Z.of_nat (numberOfChannels abuffer) * 2)%Z.
Proof.
  intros Hlen H.
  rewrite bufferToWave_bytes in H by exact Hlen.
  apply (f_equal (fun r => match r with Some l => l | None => [] end)) in H.
  cbv beta iota in H. subst bytes.
  rewrite !length_app, wave_header_length, repeat_length.
  assert (Hfl : forall l, length (flat_map (frame_bytes abuffer) l)
                          = (2 * numberOfChannels abuffer * length l)%nat).
  { induction l as [|x l IH]; [cbn; lia|].
    cbn [flat_map length]. rewrite length_app, IH.
    unfold frame_bytes.
    assert (Hf : forall cs,
               length (flat_map
                         (fun i => le_bytes16
                                     (encode_sample
                                        (typed_get (getChannelData abuffer i) x)))
                         cs) = (2 * length cs)%nat).
    { induction cs as [|c cs IHc]; [reflexivity|].
      cbn [flat_map length app le_bytes16]. rewrite IHc. lia. }
    rewrite Hf, length_seq. lia. }
  rewrite Hfl. pose proof (length_for_range 44 len). nia.
Qed.

Lemma encode_sample_full_scale_up : encode_sample 1 = 32767%Z.
Proof.
  unfold encode_sample, Math_max, Math_min. cbv zeta.
  rewrite Rmin_left, Rmax_right by lra.
  replace (Rltb (0.5 + 1) 0) with false by (symmetry; apply Rltb_false; lra).
  replace (1 * 32767) with (IZR 32767) by lra.
  unfold ToInt32. rewrite truncate_IZR. reflexivity.
Qed.

Lemma encode_sample_full_scale_down : encode_sample (-1) = (-32768)%Z.
Proof.
  unfold encode_sample, Math_max, Math_min. cbv zeta.
  rewrite Rmin_right, Rmax_right by lra.
  replace (Rltb (0.5 + -1) 0) with true by (symmetry; apply Rltb_true; lra).
  replace (-1 * 32768) with (IZR (-32768)) by lra.
  unfold ToInt32. rewrite truncate_IZR. reflexivity.
Qed.

Lemma click_track_first : typed_get (getChannelData click_track 0) 0 = 1.
Proof. reflexivity. Qed.

Lemma click_track_last : typed_get (getChannelData click_track 0) 44 = -1.
Proof. reflexivity. Qed.

Lemma click_track_header :
  wave_header 1 44100 45 =
  [82; 73; 70; 70;  126; 0; 0; 0;  87; 65; 86; 69;  102; 109; 116; 32;
   16; 0; 0; 0;  1; 0;  1; 0;  68; 172; 0; 0;  136; 88; 1; 0;
   2; 0;  16; 0;  100; 97; 116; 97;  90; 0; 0; 0]%Z.
Proof. reflexivity. Qed.

Lemma bufferToWave_click_track :
  bufferToWave click_track 45 =
  Some (wave_header 1 44100 45 ++ [0; 128]%Z ++ repeat 0%Z 88).
Proof.
  rewrite bufferToWave_bytes by lia.
  rewrite (for_range_cons 44 45), (for_range_nil (44 + 1) 45) by lia.
  cbn [flat_map]. unfold frame_bytes at 1.
  change (numberOfChannels click_track) with 1%nat.
  cbn [seq flat_map]. rewrite click_track_last, encode_sample_full_scale_down.
  reflexivity.
Qed.

Lemma wave_spec_click_track_byte_44 :
  nth 44 (wave_spec click_track 45) 0%Z = 255%Z.
Proof.
  unfold wave_spec. rewrite (for_range_cons 0 45) by lia.
  cbn [flat_map]. unfold frame_bytes at 1.
  change (numberOfChannels click_track) with 1%nat.
  cbn [seq flat_map]. rewrite click_track_first, encode_sample_full_scale_up.
  rewrite app_nth2 by (rewrite wave_header_length; lia).
  rewrite wave_header_length. reflexivity.
Qed.

(** C1 fails on the code.  For a mono buffer of 45 frames whose frame 0 is
    +1 and whose frame 44 is -1, the blob has the right size (134 bytes)
    and the right header, but its data starts with frame 44 (bytes 0, 128)
    and ends in 88 zero bytes, where the container the specification
    describes starts with frame 0 (bytes 255, 127): the sample loop reads
    from [pos], which the header writes have left at 44. *)
Theorem bufferToWave_skips_first_44_frames :
  bufferToWave click_track 45 =
    Some (wave_header 1 44100 45 ++ [0; 128]%Z ++ repeat 0%Z 88) /\
  nth 44 (wave_header 1 44100 45 ++ [0; 128]%Z ++ repeat 0%Z 88) 0%Z = 0%Z /\
  nth 44 (wave_spec click_track 45) 0%Z = 255%Z /\
  bufferToWave click_track 45 <> Some (wave_spec click_track 45).
Proof.
  split; [apply bufferToWave_click_track|].
  split; [reflexivity|].
  split; [apply wave_spec_click_track_byte_44|].
  rewrite bufferToWave_click_track. intros H.
  apply (f_equal (fun r => match r with
                           | Some l => nth 44 l 0%Z
                           | None => 0%Z
                           end)) in H.
  cbv beta iota in H. rewrite wave_spec_click_track_byte_44 in H.
  discriminate H.
Qed.

(** ** calculateProductionScore *)

Lemma calculateProductionScore_rubric stats :
  calculateProductionScore stats = score_rubric stats.
Proof.
  unfold calculateProductionScore, score_rubric, penalty.
  cbv zeta. rewrite Math_floor_IZR.
  destruct (Rgtb (peak stats) (-0.1)), (Rltb (crestFactor stats) 4),
    (Rgtb (crestFactor stats) 15), (Rltb (stereoCorrelation stats) 0),
    (Rgtb (stereoCorrelation stats) 0.95); reflexivity.
Qed.

(** The two crest-factor penalties exclude each other, and so do the two
    correlation penalties: the score never drops below 10. *)
Lemma calculateProductionScore_range stats :
  (10 <= calculateProductionScore stats <= 100)%Z.
Proof.
  unfold calculateProductionScore. cbv zeta. rewrite Math_floor_IZR.
  destruct (Rgtb (peak stats) (-0.1));
    destruct (Rltb (crestFactor stats) 4) eqn:C4;
    destruct (Rgtb (crestFactor stats) 15) eqn:C15;
    destruct (Rltb (stereoCorrelation stats) 0) eqn:S0;
    destruct (Rgtb (stereoCorrelation stats) 0.95) eqn:S95;
    try (cbn; lia);
    rewrite ?Rltb_true, ?Rgtb_true in *; lra.
Qed.

(** C3: the production score is 100 minus the fixed penalties (30 for
    peak > -0.1, 20 for crest factor < 4, 15 for crest factor > 15, 40 for
    stereo correlation < 0, 10 for stereo correlation > 0.95), clamped to
    [0,100]; with peak = -0.05, crest factor = 3 and correlation = -0.2
    it is exactly 10. *)
Theorem calculateProductionScore_spec :
  forall stats : AudioStats,
    calculateProductionScore stats = score_rubric stats /\
    (peak stats = -0.05 -> crestFactor stats = 3 ->
     stereoCorrelation stats = -0.2 ->
     calculateProductionScore stats = 10%Z).
Proof.
  intros stats; split; [apply calculateProductionScore_rubric|].
  intros Hp Hc Hs. unfold calculateProductionScore. cbv zeta.
  rewrite Math_floor_IZR, Hp, Hc, Hs.
  replace (Rgtb (-0.05) (-0.1)) with true by (symmetry; apply Rgtb_true; lra).
  replace (Rltb 3 4) with true by (symmetry; apply Rltb_true; lra).
  replace (Rgtb 3 15) with false by (symmetry; apply Rgtb_false; lra).
  replace (Rltb (-0.2) 0) with true by (symmetry; apply Rltb_true; lra).
  replace (Rgtb (-0.2) 0.95) with false by (symmetry; apply Rgtb_false; lra).
  reflexivity.
Qed.

Lemma calculateProductionScore_spec_witness :
  calculateProductionScore scenario_stats = score_rubric scenario_stats /\
  calculateProductionScore scenario_stats = 10%Z.
Proof.
  destruct (calculateProductionScore_spec scenario_stats) as [H1 H2].
  split; [exact H1 | apply H2; reflexivity].
Defined.

(** ** calculateAudioStats on mono buffers *)








(** ** makeDistortionCurve *)

Lemma curve_entry_soft_clip k i :
  curve_entry k i = soft_clip k (2 * IZR i / 44100 - 1).
Proof.
  unfold curve_entry, soft_clip, n_samples. cbv zeta.
  do 2 f_equal. lra.
Qed.

Lemma soft_clip_monotone k x y :
  0 <= k -> x <= y -> soft_clip k x <= soft_clip k y.
Proof.
  intros Hk Hxy. unfold soft_clip.
  apply Rmult_le_compat_l; [left; apply two_over_PI_pos|].
  apply atan_monotone. apply Rmult_le_compat_r; lra.
Qed.

Lemma soft_clip_odd k x : soft_clip k (- x) = - soft_clip k x.
Proof.
  unfold soft_clip.
  replace (- x * (1 + k / 10)) with (- (x * (1 + k / 10))) by lra.
  rewrite atan_opp. lra.
Qed.

Lemma makeDistortionCurve_length k :
  length (makeDistortionCurve k) = Z.to_nat 44100.
Proof. unfold makeDistortionCurve; cbv zeta. now rewrite length_map, length_seq. Qed.

Lemma makeDistortionCurve_nth k i :
  (i < Z.to_nat 44100)%nat ->
  nth i (makeDistortionCurve k) 0 = soft_clip k (2 * INR i / 44100 - 1).
Proof.
  intros Hi. unfold makeDistortionCurve; cbv zeta.
  rewrite nth_map_seq by exact Hi.
  rewrite curve_entry_soft_clip, <- INR_IZR_INZ. reflexivity.
Qed.

(** C9: for a drive amount k in [0,100] the curve has exactly 44100
    entries, entry i is (2/pi) * atan (x * (1 + k/10)) at x = 2i/44100 - 1,
    and the entries never decrease with i; the tabulated function is odd. *)
Theorem makeDistortionCurve_spec :
  forall k : R, 0 <= k <= 100 ->
    Z.of_nat (length (makeDistortionCurve k)) = 44100%Z /\
    (forall i : nat, (Z.of_nat i < 44100)%Z ->
       nth i (makeDistortionCurve k) 0 =
       (2 / PI) * atan ((2 * INR i / 44100 - 1) * (1 + k / 10))) /\
    (forall i j : nat, (i <= j)%nat -> (Z.of_nat j < 44100)%Z ->
       nth i (makeDistortionCurve k) 0 <= nth j (makeDistortionCurve k) 0) /\
    (forall x : R, soft_clip k (- x) = - soft_clip k x).
Proof.
  intros k [Hk0 Hk100]. split; [|split; [|split]].
  - rewrite makeDistortionCurve_length. reflexivity.
  - intros i Hi. rewrite makeDistortionCurve_nth by lia. reflexivity.
  - intros i j Hij Hj.
    rewrite !makeDistortionCurve_nth by lia.
    apply soft_clip_monotone; [exact Hk0|].
    apply le_INR in Hij. lra.
  - intros x. apply soft_clip_odd.
Qed.

Lemma makeDistortionCurve_spec_witness :
  Z.of_nat (length (makeDistortionCurve 5)) = 44100%Z /\
  nth 0 (makeDistortionCurve 5) 0 <=
  nth (Z.to_nat 22050) (makeDistortionCurve 5) 0.
Proof.
  destruct (makeDistortionCurve_spec 5 ltac:(lra)) as (Hlen & _ & Hmono & _).
  split; [exact Hlen|].
  apply Hmono; lia.
Defined.

(** ** detectBPM: the analysed slice *)

Lemma startSample_midpoint buffer :
  (0 < sampleRate buffer)%Z ->
  startSample buffer = (buffer_length buffer / 2)%Z.
Proof.
  intros Hsr. unfold startSample, duration, Math_floor.
  apply IZR_lt in Hsr.
  replace (IZR (buffer_length buffer) / IZR (sampleRate buffer) / 2
           * IZR (sampleRate buffer))
    with (IZR (buffer_length buffer) / 2) by (field; lra).
  apply floor_half.
Qed.

Lemma sliceData_length buffer :
  Z.of_nat (length (sliceData buffer)) = Z.max 0 (sliceLength buffer).
Proof.
  unfold sliceData. cbv zeta. rewrite length_map, length_for_range.
  f_equal. lia.
Qed.

Lemma sliceData_get buffer i :
  (0 <= i < sliceLength buffer)%Z ->
  typed_get (sliceData buffer) i =
  typed_get (getChannelData buffer 0) (startSample buffer + i).
Proof.
  intros Hi. unfold sliceData. cbv zeta.
  rewrite typed_get_map_for_range by lia. reflexivity.
Qed.








(** ** detectBPM: peaks, intervals and their histogram *)

Lemma intervals_of_snoc peaks i :
  peaks <> [] ->
  intervals_of (peaks ++ [i]) = intervals_of peaks ++ [(i - last peaks 0)%Z].
Proof.
  induction peaks as [|a [|b rest] IH]; intros Hne; [congruence|reflexivity|].
  change (intervals_of ((a :: b :: rest) ++ [i]))
    with ((b - a)%Z :: intervals_of ((b :: rest) ++ [i])).
  rewrite IH by discriminate. reflexivity.
Qed.

Lemma peak_step_spaced data peaks i :
  spaced peaks -> spaced (peak_step data peaks i).
Proof.
  intros Hs. unfold peak_step.
  destruct (Rgtb (typed_get data i) threshold); cbn [andb]; [|exact Hs].
  destruct peaks as [|a rest]; [constructor|].
  destruct (2000 <? i - last (a :: rest) 0)%Z eqn:Hgap; [|exact Hs].
  unfold spaced. rewrite intervals_of_snoc by discriminate.
  apply Forall_app. split; [exact Hs|].
  constructor; [|constructor]. apply Z.ltb_lt. exact Hgap.
Qed.

Lemma find_peaks_spaced data : spaced (find_peaks data).
Proof.
  unfold find_peaks.
  assert (H : forall idxs peaks,
             spaced peaks -> spaced (fold_left (peak_step data) idxs peaks)).
  { induction idxs as [|i idxs IH]; intros peaks Hs; [exact Hs|].
    cbn [fold_left]. apply IH. apply peak_step_spaced. exact Hs. }
  apply H. constructor.
Qed.

Lemma quantize_pos int : (2000 < int)%Z -> (0 < quantize int)%Z.
Proof.
  intros H. unfold quantize.
  assert (20 <= Math_round (IZR int / 100))%Z; [|lia].
  apply Math_round_lower. apply IZR_lt in H. lra.
Qed.

Lemma quantize_hundreds k : quantize (100 * k) = (100 * k)%Z.
Proof.
  unfold quantize. rewrite mult_IZR.
  replace (100 * IZR k / 100) with (IZR k) by lra.
  rewrite Math_round_IZR. lia.
Qed.

Lemma counts_incr_keys_pos q counts :
  (0 < q)%Z -> keys_pos counts -> keys_pos (counts_incr q counts).
Proof.
  intros Hq. induction counts as [|[k c] rest IH]; intros Hk.
  - constructor; [exact Hq|constructor].
  - cbn [counts_incr]. inversion Hk as [|x l Hx Hrest]; subst.
    destruct (q =? k)%Z; [constructor; assumption|].
    destruct (q <? k)%Z.
    + constructor; [exact Hq|exact Hk].
    + constructor; [exact Hx|apply IH; exact Hrest].
Qed.

Lemma count_intervals_keys_pos intervals :
  Forall (fun d => (2000 < d)%Z) intervals ->
  keys_pos (count_intervals intervals).
Proof.
  unfold count_intervals.
  assert (H : forall ints counts,
             Forall (fun d => (2000 < d)%Z) ints -> keys_pos counts ->
             keys_pos (fold_left
                         (fun counts int => counts_incr (quantize int) counts)
                         ints counts)).
  { induction ints as [|d ints IH]; intros counts Hd Hk; [exact Hk|].
    inversion Hd; subst. cbn [fold_left]. apply IH; [assumption|].
    apply counts_incr_keys_pos; [apply quantize_pos|]; assumption. }
  intros Hd. apply H; [exact Hd|constructor].
Qed.

Lemma best_interval_nonneg counts :
  keys_pos counts -> (0 <= best_interval counts)%Z.
Proof.
  unfold best_interval.
  assert (H : forall cs acc,
             keys_pos cs -> (0 <= snd acc)%Z ->
             (0 <= snd (fold_left mode_step cs acc))%Z).
  { induction cs as [|[k c] cs IH]; intros [m b] Hk Hacc; [exact Hacc|].
    inversion Hk; subst. cbn [fold_left]. apply IH; [assumption|].
    unfold mode_step. destruct (m <? c)%Z; cbn [snd fst] in *; lia. }
  intros Hk. apply H; [exact Hk|cbn; lia].
Qed.

Lemma best_interval_rendered_nonneg data :
  (0 <= best_interval (count_intervals (intervals_of (find_peaks data))))%Z.
Proof.
  apply best_interval_nonneg, count_intervals_keys_pos, find_peaks_spaced.
Qed.

(** ** detectBPM: the fold into the genre range *)

Lemma double_up_spec fuel : forall bpm,
  0 < bpm -> 110 <= bpm * 2 ^ fuel ->
  exists r, double_up fuel bpm = Some r /\ 110 <= r /\ (r = bpm \/ r < 220).
Proof.
  induction fuel as [|fuel IH]; intros bpm Hpos Hfuel.
  - exists bpm. cbn [double_up].
    replace (Rltb bpm 110) with false
      by (symmetry; apply Rltb_false; simpl in Hfuel; lra).
    simpl in Hfuel. repeat split; [lra | left; reflexivity].
  - cbn [double_up]. destruct (Rltb bpm 110) eqn:Hlt.
    + apply Rltb_true in Hlt.
      destruct (IH (bpm * 2)) as (r & Hr & Hge & Hcase).
      * lra.
      * simpl in Hfuel. lra.
      * exists r. repeat split; [exact Hr | exact Hge |].
        right. destruct Hcase; lra.
    + apply Rltb_false in Hlt. exists bpm.
      repeat split; [exact Hlt | left; reflexivity].
Qed.

Lemma halve_down_spec fuel : forall bpm,
  77.5 < bpm -> bpm / 2 ^ fuel <= 155 ->
  exists r, halve_down fuel bpm = Some r /\ 77.5 < r <= 155.
Proof.
  induction fuel as [|fuel IH]; intros bpm Hlow Hfuel.
  - exists bpm. cbn [halve_down]. simpl in Hfuel.
    replace (Rgtb bpm 155) with false by (symmetry; apply Rgtb_false; lra).
    split; [reflexivity | lra].
  - cbn [halve_down]. destruct (Rgtb bpm 155) eqn:Hgt.
    + apply Rgtb_true in Hgt. apply IH; [lra|].
      simpl in Hfuel.
      replace (bpm / 2 / 2 ^ fuel) with (bpm / (2 * 2 ^ fuel)); [exact Hfuel|].
      pose proof (pow_lt 2 fuel ltac:(lra)). field. lra.
    + apply Rgtb_false in Hgt. exists bpm. split; [reflexivity | lra].
Qed.

Lemma double_up_done fuel bpm : 110 <= bpm -> double_up fuel bpm = Some bpm.
Proof.
  intros H. destruct fuel; cbn [double_up];
    replace (Rltb bpm 110) with false by (symmetry; apply Rltb_false; exact H);
    reflexivity.
Qed.

Lemma halve_down_done fuel bpm : bpm <= 155 -> halve_down fuel bpm = Some bpm.
Proof.
  intros H. destruct fuel; cbn [halve_down];
    replace (Rgtb bpm 155) with false by (symmetry; apply Rgtb_false; exact H);
    reflexivity.
Qed.

Lemma halve_down_step fuel bpm :
  155 < bpm -> halve_down (S fuel) bpm = halve_down fuel (bpm / 2).
Proof.
  intros H. cbn [halve_down].
  replace (Rgtb bpm 155) with true by (symmetry; apply Rgtb_true; exact H).
  reflexivity.
Qed.

Lemma Math_round_range r : 77.5 < r <= 155 -> (78 <= Math_round r <= 155)%Z.
Proof.
  intros [Hlo Hhi]. split.
  - apply Math_round_lower. lra.
  - unfold Math_round.
    pose proof (Zfloor_bound (r + / 2)) as [Hb _].
    assert (Hlt : IZR (Zfloor (r + / 2)) < IZR 156) by lra.
    apply lt_IZR in Hlt. lia.
Qed.

Lemma fold_fuel_enough sampleRate bestInterval :
  (0 < sampleRate)%Z -> (0 < bestInterval)%Z ->
  2 * IZR bestInterval <= 2 ^ fold_fuel sampleRate bestInterval /\
  4 * IZR sampleRate <= 2 ^ fold_fuel sampleRate bestInterval.
Proof.
  intros Hsr Hbest. unfold fold_fuel.
  pose proof (Z.log2_up_nonneg (2 * bestInterval)) as Ha.
  pose proof (Z.log2_up_nonneg sampleRate) as Hb.
  destruct (Z.log2_log2_up_spec (2 * bestInterval) ltac:(lia)) as [_ Hpa].
  destruct (Z.log2_log2_up_spec sampleRate ltac:(lia)) as [_ Hpb].
  rewrite pow_IZR, Z2Nat.id by lia.
  rewrite !Z.pow_add_r by lia. change (2 ^ 1)%Z with 2%Z.
  set (pa := (2 ^ Z.log2_up (2 * bestInterval))%Z) in *.
  set (pb := (2 ^ Z.log2_up sampleRate)%Z) in *.
  rewrite <- !mult_IZR.
  split; apply IZR_le; nia.
Qed.

Lemma fold_bpm_range sampleRate bestInterval :
  (0 < sampleRate)%Z -> (0 < bestInterval)%Z ->
  exists bpm, fold_bpm sampleRate bestInterval = Some bpm /\
              (78 <= bpm <= 155)%Z.
Proof.
  intros Hsr Hbest. unfold fold_bpm. cbv zeta.
  destruct (fold_fuel_enough _ _ Hsr Hbest) as [Hf1 Hf2].
  set (fuel := fold_fuel sampleRate bestInterval) in *.
  assert (Hs : 1 <= IZR sampleRate) by (apply IZR_le; lia).
  assert (Hb : 1 <= IZR bestInterval) by (apply IZR_le; lia).
  set (bpm0 := 60 * IZR sampleRate / IZR bestInterval).
  assert (Hbpm0 : 0 < bpm0).
  { unfold bpm0. apply Rdiv_lt_0_compat; lra. }
  assert (Hbpm0' : bpm0 * IZR bestInterval = 60 * IZR sampleRate).
  { unfold bpm0. field. lra. }
  assert (Hbpm0le : bpm0 <= 60 * IZR sampleRate) by nra.
  destruct (double_up_spec fuel bpm0 Hbpm0) as (r1 & Hr1 & Hge & Hcase).
  { nra. }
  rewrite Hr1.
  assert (Hpow : 0 < 2 ^ fuel) by (apply pow_lt; lra).
  destruct (halve_down_spec fuel r1) as (r2 & Hr2 & Hrange).
  { lra. }
  { apply Rmult_le_reg_r with (2 ^ fuel); [exact Hpow|].
    unfold Rdiv. rewrite Rmult_assoc, Rinv_l by lra.
    destruct Hcase; nra. }
  rewrite Hr2. exists (Math_round r2). split; [reflexivity|].
  apply Math_round_range. exact Hrange.
Qed.

Lemma bpm_of_rendered_range sampleRate data :
  (0 < sampleRate)%Z ->
  exists bpm, bpm_of_rendered sampleRate data = Some bpm /\
              (78 <= bpm <= 155)%Z.
Proof.
  intros Hsr. unfold bpm_of_rendered. cbv zeta.
  pose proof (best_interval_rendered_nonneg data) as Hnn.
  destruct (_ =? 0)%Z eqn:Hz.
  - exists 128%Z. split; [reflexivity | lia].
  - apply Z.eqb_neq in Hz. apply fold_bpm_range; lia.
Qed.

(** Whatever the renderer does, [detectBPM] returns, and what it returns
    is between 78 and 155. *)
Lemma detectBPM_total_range
      (renderLowpass : R -> Z -> Z -> list (list R) -> option (list R))
      (buffer : AudioBuffer) :
  (0 < sampleRate buffer)%Z ->
  exists bpm, detectBPM renderLowpass buffer = Some bpm /\
              (78 <= bpm <= 155)%Z.
Proof.
  intros Hsr. unfold detectBPM.
  destruct (sliceLength buffer <=? 0)%Z.
  - exists 128%Z. split; [reflexivity | lia].
  - destruct (renderLowpass _ _ _ _) as [data|].
    + apply bpm_of_rendered_range. exact Hsr.
    + exists 128%Z. split; [reflexivity | lia].
Qed.

(** ** detectBPM: a track the fold takes below 110 *)

Lemma peak_step_low data peaks i :
  typed_get data i <= threshold -> peak_step data peaks i = peaks.
Proof.
  intros H. unfold peak_step.
  replace (Rgtb (typed_get data i) threshold) with false
    by (symmetry; apply Rgtb_false; exact H).
  reflexivity.
Qed.

Lemma peak_step_first data i :
  typed_get data i > threshold -> peak_step data [] i = [i].
Proof.
  intros H. unfold peak_step.
  replace (Rgtb (typed_get data i) threshold) with true
    by (symmetry; apply Rgtb_true; exact H).
  reflexivity.
Qed.

Lemma peak_step_push data a rest i :
  typed_get data i > threshold ->
  (2000 < i - last (a :: rest) 0)%Z ->
  peak_step data (a :: rest) i = (a :: rest) ++ [i].
Proof.
  intros H Hgap. unfold peak_step.
  replace (Rgtb (typed_get data i) threshold) with true
    by (symmetry; apply Rgtb_true; exact H).
  apply Z.ltb_lt in Hgap. rewrite Hgap. reflexivity.
Qed.

Lemma kick_one i :
  (i = 26001 \/ i = 39001 \/ i = 52001)%Z -> kick i = 1.
Proof.
  intros H. unfold kick.
  destruct (Z.eqb_spec i 26001), (Z.eqb_spec i 39001), (Z.eqb_spec i 52001);
    cbn [orb]; try reflexivity; lia.
Qed.

Lemma kick_zero i :
  i <> 26001%Z -> i <> 39001%Z -> i <> 52001%Z -> kick i = 0.
Proof.
  intros H1 H2 H3. unfold kick.
  destruct (Z.eqb_spec i 26001), (Z.eqb_spec i 39001), (Z.eqb_spec i 52001);
    cbn [orb]; try reflexivity; lia.
Qed.

Lemma kick_track_length : buffer_length kick_track = 52002%Z.
Proof.
  unfold buffer_length, getChannelData, kick_track.
  cbn [channelData nth]. rewrite length_map, length_for_range. reflexivity.
Qed.

Lemma kick_track_slice :
  startSample kick_track = 26001%Z /\ sliceLength kick_track = 26001%Z.
Proof.
  assert (Hs : startSample kick_track = 26001%Z).
  { rewrite startSample_midpoint by reflexivity.
    rewrite kick_track_length. reflexivity. }
  split; [exact Hs|].
  unfold sliceLength, endSample. rewrite Hs, kick_track_length. reflexivity.
Qed.

Lemma kick_track_slice_get i :
  (0 <= i < 26001)%Z ->
  typed_get (sliceData kick_track) i = kick (26001 + i).
Proof.
  intros Hi. destruct kick_track_slice as [Hs Hl].
  rewrite sliceData_get by lia. rewrite Hs.
  unfold getChannelData, kick_track. cbn [channelData nth].
  rewrite typed_get_map_for_range by lia. f_equal.
Qed.

Ltac kick_sample :=
  rewrite kick_track_slice_get by lia;
  first [ rewrite kick_one by lia | rewrite kick_zero by lia ];
  unfold threshold; lra.

Ltac kick_scan :=
  rewrite fold_left_cons;
  first [ rewrite peak_step_low by kick_sample
        | rewrite peak_step_first by kick_sample
        | rewrite peak_step_push by (first [kick_sample | cbn; lia]) ];
  cbn [app].

Lemma kick_track_peaks :
  find_peaks (sliceData kick_track) = [0; 13000; 26000]%Z.
Proof.
  unfold find_peaks. rewrite sliceData_length.
  destruct kick_track_slice as [_ ->].
  let l := eval vm_compute in (stride_range (Z.max 0 26001) 1000) in
  replace (stride_range (Z.max 0 26001) 1000) with l
    by (vm_compute; reflexivity).
  do 27 kick_scan. reflexivity.
Qed.

Lemma kick_track_best_interval :
  best_interval
    (count_intervals (intervals_of (find_peaks (sliceData kick_track))))
  = 13000%Z.
Proof.
  rewrite kick_track_peaks.
  change (intervals_of [0; 13000; 26000]%Z) with [13000; 13000]%Z.
  unfold count_intervals. cbn [fold_left].
  change 13000%Z with (100 * 130)%Z. rewrite quantize_hundreds.
  reflexivity.
Qed.

Lemma fold_bpm_44100_13000 : fold_bpm 44100 13000 = Some 102%Z.
Proof.
  unfold fold_bpm. cbv zeta.
  replace (fold_fuel 44100 13000) with 32%nat by (vm_compute; reflexivity).
  rewrite double_up_done by lra.
  rewrite halve_down_step by lra.
  rewrite halve_down_done by lra.
  f_equal. apply Zfloor_eq. lra.
Qed.

Lemma detectBPM_kick_track : detectBPM pass_through kick_track = Some 102%Z.
Proof.
  unfold detectBPM. destruct kick_track_slice as [_ Hl]. rewrite Hl.
  cbn [Z.leb Z.compare pass_through hd].
  unfold bpm_of_rendered. cbv zeta.
  rewrite kick_track_best_interval. cbn [Z.eqb].
  apply fold_bpm_44100_13000.
Qed.

(** Whatever the filter does, a modal interval of 13000 frames at
    44.1 kHz ends as 102. *)
Lemma detectBPM_interval_13000
      (renderLowpass : R -> Z -> Z -> list (list R) -> option (list R))
      (buffer : AudioBuffer) (data : list R) :
  sampleRate buffer = 44100%Z ->
  (0 < sliceLength buffer)%Z ->
  renderLowpass 150 (sampleRate buffer) (sliceLength buffer)
                [sliceData buffer] = Some data ->
  best_interval (count_intervals (intervals_of (find_peaks data))) = 13000%Z ->
  detectBPM renderLowpass buffer = Some 102%Z.
Proof.
  intros Hsr Hlen Hrender Hbest. unfold detectBPM.
  replace (sliceLength buffer <=? 0)%Z with false
    by (symmetry; apply Z.leb_gt; exact Hlen).
  rewrite Hrender. unfold bpm_of_rendered. cbv zeta.
  rewrite Hbest, Hsr. cbn [Z.eqb].
  apply fold_bpm_44100_13000.
Qed.

(** C4 as the specification states it fails: on a 44.1 kHz track whose
    beats are 13000 frames apart the modal interval is 13000 (not zero),
    the raw tempo is about 203.5, the halving loop takes it to about
    101.8, and [detectBPM] returns 102, which is below 110. *)
Lemma detectBPM_below_110 :
  best_interval
    (count_intervals (intervals_of (find_peaks (sliceData kick_track))))
  = 13000%Z /\
  detectBPM pass_through kick_track = Some 102%Z /\
  ~ (110 <= 102 <= 155)%Z.
Proof.
  split; [apply kick_track_best_interval|].
  split; [apply detectBPM_kick_track|]. lia.
Qed.

(** C4, as the code has it: whenever [detectBPM] finds a non-zero modal
    inter-peak interval it returns, and the BPM it returns after the
    doubling and halving loops and the rounding lies within [78, 155]. *)
Theorem detectBPM_fold_range :
  forall (renderLowpass : R -> Z -> Z -> list (list R) -> option (list R))
         (buffer : AudioBuffer) (data : list R),
    (0 < sampleRate buffer)%Z ->
    (0 < sliceLength buffer)%Z ->
    renderLowpass 150 (sampleRate buffer) (sliceLength buffer)
                  [sliceData buffer] = Some data ->
    best_interval (count_intervals (intervals_of (find_peaks data))) <> 0%Z ->
    exists bpm : Z,
      detectBPM renderLowpass buffer = Some bpm /\ (78 <= bpm <= 155)%Z.
Proof.
  intros renderLowpass buffer data Hsr Hlen Hrender Hbest.
  unfold detectBPM.
  replace (sliceLength buffer <=? 0)%Z with false
    by (symmetry; apply Z.leb_gt; exact Hlen).
  rewrite Hrender. apply bpm_of_rendered_range. exact Hsr.
Qed.

Lemma detectBPM_fold_range_witness :
  exists bpm : Z,
    detectBPM pass_through kick_track = Some bpm /\ (78 <= bpm <= 155)%Z.
Proof.
  apply (detectBPM_fold_range pass_through kick_track (sliceData kick_track)).
  - reflexivity.
  - destruct kick_track_slice as [_ Hl]. rewrite Hl. reflexivity.
  - reflexivity.
  - rewrite kick_track_best_interval. discriminate.
Defined.

(** ** analyzeKeyReal: the key mapping *)

Lemma note_of_freq_unfold freq :
  note_of_freq freq = note_name (Z.rem (Math_round (noteNum_of freq) + 69) 12).
Proof. reflexivity. Qed.

Lemma noteNum_of_double freq :
  0 < freq -> noteNum_of (2 * freq) = noteNum_of freq + IZR 12.
Proof.
  intros Hf. unfold noteNum_of.
  replace (2 * freq / 440) with (2 * (freq / 440)) by lra.
  rewrite ln_mult by lra.
  pose proof ln_2_pos. field. lra.
Qed.

Lemma noteNum_of_lower freq : 40 <= freq -> -60 <= noteNum_of freq.
Proof.
  intros Hf. unfold noteNum_of.
  assert (Hln : ln (/ 2 ^ 5) <= ln (freq / 440)) by (apply ln_monotone; lra).
  rewrite ln_Rinv, ln_pow in Hln by lra.
  replace (INR 5) with 5 in Hln by (simpl; lra).
  pose proof ln_2_pos as H2.
  assert (-5 <= ln (freq / 440) / ln 2).
  { apply Rmult_le_reg_r with (ln 2); [exact H2|].
    unfold Rdiv. rewrite Rmult_assoc, Rinv_l by lra. lra. }
  lra.
Qed.

Lemma note_of_freq_double freq :
  40 <= freq -> note_of_freq (2 * freq) = note_of_freq freq.
Proof.
  intros Hf. rewrite !note_of_freq_unfold.
  rewrite noteNum_of_double, Math_round_add_IZR by lra.
  assert (Hlow : (-60 <= Math_round (noteNum_of freq))%Z).
  { apply Math_round_lower. pose proof (noteNum_of_lower freq Hf). lra. }
  f_equal.
  rewrite !Z.rem_mod_nonneg by lia.
  replace (Math_round (noteNum_of freq) + 12 + 69)%Z
    with (Math_round (noteNum_of freq) + 69 + 1 * 12)%Z by lia.
  apply Z_mod_plus_full.
Qed.

Lemma note_of_freq_440 : note_of_freq 440 = "A"%string.
Proof.
  rewrite note_of_freq_unfold. unfold noteNum_of.
  replace (440 / 440) with 1 by lra. rewrite ln_1.
  replace (12 * (0 / ln 2)) with (IZR 0) by (unfold Rdiv; lra).
  replace (Math_round (IZR 0)) with 0%Z
    by (symmetry; apply Zfloor_eq; lra).
  reflexivity.
Qed.

Lemma note_of_freq_880 : note_of_freq 880 = "A"%string.
Proof.
  replace 880 with (2 * 440) by lra.
  rewrite note_of_freq_double by lra. apply note_of_freq_440.
Qed.

(** The frequencies the detector can report: [sampleRate / offset] for a
    lag [offset] of the autocorrelation loop. *)
Lemma lags_bounds sampleRate offset :
  In offset (lags sampleRate) ->
  IZR sampleRate / 1000 - 1 < IZR offset /\ IZR offset < IZR sampleRate / 40.
Proof.
  unfold lags, Math_floor. rewrite In_for_range. intros [Hlo Hhi].
  pose proof (Zfloor_bound (IZR sampleRate / 1000)) as [_ B1].
  pose proof (Zfloor_bound (IZR sampleRate / 40)) as [B2 _].
  apply IZR_le in Hlo. apply IZR_lt in Hhi. lra.
Qed.

Lemma detector_freq_above_40 sampleRate offset :
  In offset (lags sampleRate) -> (0 < offset)%Z ->
  40 < IZR sampleRate / IZR offset.
Proof.
  intros Hin Hpos. destruct (lags_bounds _ _ Hin) as [_ Hhi].
  apply IZR_lt in Hpos.
  apply Rmult_lt_reg_r with (IZR offset); [exact Hpos|].
  unfold Rdiv. rewrite Rmult_assoc, Rinv_l by lra. lra.
Qed.

(** C7: the key estimator's mapping from a frequency to a note name sends
    440 Hz to "A" and 880 Hz to "A", and for every frequency the detector
    can report (sampleRate / lag, for a lag of the autocorrelation loop)
    doubling the frequency leaves the note name unchanged. *)
Theorem note_of_freq_octave_invariant :
  note_of_freq 440 = "A"%string /\
  note_of_freq 880 = "A"%string /\
  (forall freq : R, 40 <= freq -> note_of_freq (2 * freq) = note_of_freq freq) /\
  (forall sampleRate offset : Z,
     In offset (lags sampleRate) -> (0 < offset)%Z ->
     note_of_freq (2 * (IZR sampleRate / IZR offset)) =
     note_of_freq (IZR sampleRate / IZR offset)).
Proof.
  split; [apply note_of_freq_440|].
  split; [apply note_of_freq_880|].
  split; [apply note_of_freq_double|].
  intros sampleRate offset Hin Hpos.
  apply note_of_freq_double. left.
  apply detector_freq_above_40; assumption.
Qed.

Lemma lags_44100_100 : In 100%Z (lags 44100).
Proof.
  unfold lags, Math_floor. apply In_for_range.
  replace (Zfloor (44100 / 1000)) with 44%Z by (symmetry; apply Zfloor_eq; lra).
  replace (Zfloor (44100 / 40)) with 1102%Z by (symmetry; apply Zfloor_eq; lra).
  lia.
Defined.

Lemma note_of_freq_octave_invariant_witness :
  note_of_freq (2 * (44100 / 100)) = note_of_freq (44100 / 100).
Proof.
  destruct note_of_freq_octave_invariant as (_ & _ & _ & Hdet).
  apply (Hdet 44100%Z 100%Z lags_44100_100). reflexivity.
Defined.

(** ** The estimators' fallbacks *)

Lemma find_peaks_none_best_interval data :
  find_peaks data = [] ->
  best_interval (count_intervals (intervals_of (find_peaks data))) = 0%Z.
Proof. intros ->. reflexivity. Qed.

Lemma bpm_of_rendered_default sampleRate data :
  best_interval (count_intervals (intervals_of (find_peaks data))) = 0%Z ->
  bpm_of_rendered sampleRate data = Some 128%Z.
Proof. unfold bpm_of_rendered. cbv zeta. intros ->. reflexivity. Qed.

Lemma fold_lag_step_no_positive data offsets :
  (forall offset, In offset offsets -> correlation_at data offset <= 0) ->
  fold_left (lag_step data) offsets ((-1)%Z, 0) = ((-1)%Z, 0).
Proof.
  induction offsets as [|offset offsets IH]; intros Hall; [reflexivity|].
  cbn [fold_left]. unfold lag_step at 2. cbv zeta.
  replace (Rgtb (correlation_at data offset) 0) with false
    by (symmetry; apply Rgtb_false; apply Hall; left; reflexivity).
  apply IH. intros o Ho. apply Hall. right. exact Ho.
Qed.

Lemma key_of_rendered_no_positive sampleRate data :
  (forall offset, In offset (lags sampleRate) ->
                  correlation_at data offset <= 0) ->
  key_of_rendered sampleRate data = "Unknown"%string.
Proof.
  intros Hall. unfold key_of_rendered, best_offset.
  rewrite fold_lag_step_no_positive by exact Hall. reflexivity.
Qed.

Section Fallbacks.

Variable renderLowpass : R -> Z -> Z -> list (list R) -> option (list R).

Lemma detectBPM_empty_slice buffer :
  (sliceLength buffer <= 0)%Z -> detectBPM renderLowpass buffer = Some 128%Z.
Proof.
  intros H. unfold detectBPM.
  apply Z.leb_le in H. rewrite H. reflexivity.
Qed.

Lemma detectBPM_render_throws buffer :
  renderLowpass 150 (sampleRate buffer) (sliceLength buffer)
                [sliceData buffer] = None ->
  detectBPM renderLowpass buffer = Some 128%Z.
Proof.
  intros H. unfold detectBPM. rewrite H.
  destruct (sliceLength buffer <=? 0)%Z; reflexivity.
Qed.

Lemma detectBPM_no_interval buffer data :
  renderLowpass 150 (sampleRate buffer) (sliceLength buffer)
                [sliceData buffer] = Some data ->
  best_interval (count_intervals (intervals_of (find_peaks data))) = 0%Z ->
  detectBPM renderLowpass buffer = Some 128%Z.
Proof.
  intros Hr Hb. unfold detectBPM. rewrite Hr.
  rewrite bpm_of_rendered_default by exact Hb.
  destruct (sliceLength buffer <=? 0)%Z; reflexivity.
Qed.

Lemma analyzeKeyReal_render_throws buffer :
  renderLowpass 1000 (sampleRate buffer)
                (Z.min (buffer_length buffer) (sampleRate buffer * 2))
                (channelData buffer) = None ->
  analyzeKeyReal renderLowpass buffer = "Unknown"%string.
Proof. intros H. unfold analyzeKeyReal. cbv zeta. rewrite H. reflexivity. Qed.

Lemma analyzeKeyReal_no_positive_lag buffer data :
  renderLowpass 1000 (sampleRate buffer)
                (Z.min (buffer_length buffer) (sampleRate buffer * 2))
                (channelData buffer) = Some data ->
  (forall offset, In offset (lags (sampleRate buffer)) ->
                  correlation_at data offset <= 0) ->
  analyzeKeyReal renderLowpass buffer = "Unknown"%string.
Proof.
  intros Hr Hall. unfold analyzeKeyReal. cbv zeta. rewrite Hr.
  apply key_of_rendered_no_positive. exact Hall.
Qed.

End Fallbacks.

(** C6: the estimators fall back to their defaults.  [detectBPM] returns
    128 when the slice is empty, when rendering throws, when no peak is
    found, and when no non-zero modal interval is found; [analyzeKeyReal]
    returns "Unknown" when rendering throws and when no lag has a positive
    autocorrelation. *)
Theorem estimators_fall_back :
  forall (renderLowpass : R -> Z -> Z -> list (list R) -> option (list R))
         (buffer : AudioBuffer),
    let rendered_for_bpm :=
      renderLowpass 150 (sampleRate buffer) (sliceLength buffer)
                    [sliceData buffer] in
    let rendered_for_key :=
      renderLowpass 1000 (sampleRate buffer)
                    (Z.min (buffer_length buffer) (sampleRate buffer * 2))
                    (channelData buffer) in
    ((sliceLength buffer <= 0)%Z ->
     detectBPM renderLowpass buffer = Some 128%Z) /\
    (rendered_for_bpm = None ->
     detectBPM renderLowpass buffer = Some 128%Z) /\
    (forall data, rendered_for_bpm = Some data ->
       find_peaks data = [] ->
       detectBPM renderLowpass buffer = Some 128%Z) /\
    (forall data, rendered_for_bpm = Some data ->
       best_interval (count_intervals (intervals_of (find_peaks data))) = 0%Z ->
       detectBPM renderLowpass buffer = Some 128%Z) /\
    (rendered_for_key = None ->
     analyzeKeyReal renderLowpass buffer = "Unknown"%string) /\
    (forall data, rendered_for_key = Some data ->
       (forall offset, In offset (lags (sampleRate buffer)) ->
                       correlation_at data offset <= 0) ->
       analyzeKeyReal renderLowpass buffer = "Unknown"%string).
Proof.
  intros renderLowpass buffer rendered_for_bpm rendered_for_key.
  subst rendered_for_bpm rendered_for_key.
  split; [apply detectBPM_empty_slice|].
  split; [apply detectBPM_render_throws|].
  split.
  { intros data Hr Hp. apply (detectBPM_no_interval _ _ data Hr).
    apply find_peaks_none_best_interval. exact Hp. }
  split; [apply detectBPM_no_interval|].
  split; [apply analyzeKeyReal_render_throws|].
  apply analyzeKeyReal_no_positive_lag.
Qed.

Lemma estimators_fall_back_witness :
  detectBPM render_fails click_track = Some 128%Z /\
  analyzeKeyReal render_fails click_track = "Unknown"%string.
Proof.
  destruct (estimators_fall_back render_fails click_track)
    as (_ & Hbpm & _ & _ & Hkey & _).
  split; [apply Hbpm | apply Hkey]; reflexivity.
Defined.

(** ** The settings surface *)



Lemma setting_applyArgs key args prev :
  setting key (applyArgs args prev) =
  match args key with Some v => v | None => setting key prev end.
Proof. destruct key; reflexivity. Qed.



(** The live graph is steered towards the very values an offline graph
    is built with. *)
Lemma settingsEffect_setupAudioGraph s : settingsEffect s = setupAudioGraph s.
Proof. reflexivity. Qed.

Lemma Knob_handleMouseMove_range min max startValue startY clientY :
  min <= max ->
  min <= Knob_handleMouseMove min max startValue startY clientY <= max.
Proof.
  intros Hle. unfold Knob_handleMouseMove, Math_max, Math_min. cbv zeta.
  split; [apply Rmax_l|].
  apply Rmax_lub; [exact Hle | apply Rmin_l].
Qed.


(** The knobs and the assistant's tool declaration give the same
    ranges. *)
Lemma knob_range_declared key : knob_range key = declared_range key.
Proof. destruct key; reflexivity. Qed.




(** ** Live metering *)

Lemma scan_silence_from n :
  fold_left scan_step (repeat 0 n) (0, 0) = (0, 0).
Proof.
  induction n as [|n IH]; [reflexivity|].
  cbn [repeat fold_left]. unfold scan_step at 2.
  replace (0 + 0 * 0) with 0 by lra.
  unfold Math_abs. rewrite Rabs_R0.
  replace (Rgtb 0 0) with false by (symmetry; apply Rgtb_false; lra).
  exact IH.
Qed.

Lemma scan_silence n : scan (repeat 0 n) = (0, 0).
Proof. apply scan_silence_from. Qed.

Lemma meterUpdate_floor dataArray now t :
  liveStats (meterUpdate dataArray now t) =
  meter_floor (meterSmoothingRef (meterUpdate dataArray now t)).
Proof.
  unfold meterUpdate. destruct (scan dataArray) as [sumSquares pk].
  reflexivity.
Qed.

Lemma meterUpdate_silence n now t :
  meterSmoothingRef t = meter_reset ->
  liveStats (meterUpdate (repeat 0 n) now t) = mkMeterReading (-100) (-100).
Proof.
  intros Hreset. unfold meterUpdate.
  rewrite scan_silence, Hreset. cbv zeta.
  cbn [meter_rms meter_peak meter_reset liveStats].
  replace (0 / INR (length (repeat 0 n))) with 0 by (unfold Rdiv; lra).
  rewrite sqrt_0, or_default_zero, Math_log10_millionth.
  unfold Math_max. f_equal.
  - apply Rmax_left. lra.
  - rewrite (Rmax_right (20 * -6)) by lra. apply Rmax_left. lra.
Qed.

Lemma updateTime_publishes f t :
  publishes f t = true ->
  exists dataArray now,
    timeDomainData f = Some dataArray /\
    audioTime f = Some now /\
    updateTime f t =
    meterUpdate dataArray (performance_now f)
      (setCurrentTime (startOffsetRef t + (now - startTimeRef t)) t).
Proof.
  unfold publishes, updateTime. cbv zeta.
  destruct (isPlaying t); [|discriminate].
  destruct (audioTime f) as [now|]; [|discriminate].
  destruct (track_ended f _); [discriminate|].
  destruct (timeDomainData f) as [dataArray|]; [|discriminate].
  cbn [andb negb setCurrentTime lastMeterUpdateRef].
  intros ->. exists dataArray, now. repeat split; reflexivity.
Qed.

Lemma updateTime_silent f t :
  publishes f t = false -> liveStats (updateTime f t) = liveStats t.
Proof.
  unfold publishes, updateTime. cbv zeta.
  destruct (isPlaying t); [|reflexivity].
  destruct (audioTime f) as [now|]; [|reflexivity].
  destruct (track_ended f _); [reflexivity|].
  destruct (timeDomainData f) as [dataArray|]; [|reflexivity].
  cbn [andb negb setCurrentTime lastMeterUpdateRef].
  intros ->. reflexivity.
Qed.

(** C8: every reading [updateTime] publishes is the smoothed reading
    floored at -100 dB, and from the reset state (-100, -100) an all-zero
    analysis buffer publishes exactly (-100, -100). *)
Theorem updateTime_meter_floor :
  forall (f : Frame) (t : Transport),
    publishes f t = true ->
    liveStats (updateTime f t) =
      mkMeterReading (Rmax (-100) (meter_rms (meterSmoothingRef (updateTime f t))))
                     (Rmax (-100) (meter_peak (meterSmoothingRef (updateTime f t)))) /\
    (forall n : nat,
       timeDomainData f = Some (repeat 0 n) ->
       meterSmoothingRef t = mkMeterReading (-100) (-100) ->
       liveStats (updateTime f t) = mkMeterReading (-100) (-100)).
Proof.
  intros f t Hpub.
  destruct (updateTime_publishes f t Hpub)
    as (dataArray & now & Hdata & _ & Hstep).
  rewrite Hstep. split.
  - apply meterUpdate_floor.
  - intros n Hsilent Hreset.
    rewrite Hdata in Hsilent. injection Hsilent as ->.
    apply meterUpdate_silence. exact Hreset.
Qed.

Lemma silent_frame_publishes : publishes silent_frame playing_after_reset = true.
Proof.
  unfold publishes, silent_frame, playing_after_reset, track_ended.
  cbn [isPlaying bufferDuration timeDomainData startOffsetRef audioTime
       startTimeRef performance_now lastMeterUpdateRef andb].
  replace (Rleb 180 (0 + (1 - 0))) with false by (symmetry; apply Rleb_false; lra).
  replace (Rgtb (100 - 0) 50) with true by (symmetry; apply Rgtb_true; lra).
  reflexivity.
Defined.

Lemma updateTime_meter_floor_witness :
  liveStats (updateTime silent_frame playing_after_reset) =
  mkMeterReading (-100) (-100).
Proof.
  destruct (updateTime_meter_floor silent_frame playing_after_reset
              silent_frame_publishes) as [_ Hsilence].
  apply (Hsilence (Z.to_nat 2048)); reflexivity.
Defined.

(** ** More on bufferToWave: sizes, bytes and the sample encoding *)

Lemma byte_at_mod k v : (0 <= k)%Z -> byte_at k v = ((v / 2 ^ (8 * k)) mod 256)%Z.
Proof.
  intros Hk. unfold byte_at.
  rewrite Z.shiftr_div_pow2 by lia.
  change 255%Z with (Z.ones 8). rewrite Z.land_ones by lia. reflexivity.
Qed.

Lemma byte_at_is_byte k v : (0 <= k)%Z -> is_byte (byte_at k v).
Proof.
  intros Hk. unfold is_byte. rewrite byte_at_mod by exact Hk.
  apply Z.mod_pos_bound. lia.
Qed.

Lemma le_value_bytes16 v : le_value (le_bytes16 v) = (v mod 2 ^ 16)%Z.
Proof.
  unfold le_bytes16. cbn [le_value]. rewrite !byte_at_mod by lia.
  change (2 ^ (8 * 0))%Z with 1%Z. change (2 ^ (8 * 1))%Z with 256%Z.
  change (2 ^ 16)%Z with (256 * 256)%Z.
  rewrite Z.div_1_r, (Z.rem_mul_r v 256 256) by lia. lia.
Qed.

Lemma le_value_bytes32 v : le_value (le_bytes32 v) = (v mod 2 ^ 32)%Z.
Proof.
  unfold le_bytes32. cbn [le_value]. rewrite !byte_at_mod by lia.
  change (2 ^ (8 * 0))%Z with 1%Z. change (2 ^ (8 * 1))%Z with 256%Z.
  change (2 ^ (8 * 2))%Z with (256 * 256)%Z.
  change (2 ^ (8 * 3))%Z with (256 * 256 * 256)%Z.
  change (2 ^ 32)%Z with (256 * (256 * (256 * 256)))%Z.
  rewrite Z.div_1_r, <- !Z.div_div by lia.
  rewrite (Z.rem_mul_r v 256 (256 * (256 * 256))) by lia.
  rewrite (Z.rem_mul_r (v / 256) 256 (256 * 256)) by lia.
  rewrite (Z.rem_mul_r (v / 256 / 256) 256 256) by lia.
  lia.
Qed.

Lemma as_int16_wrap z :
  (-32768 <= z <= 32767)%Z -> as_int16 (z mod 2 ^ 16) = z.
Proof.
  intros Hz. unfold as_int16. change (2 ^ 16)%Z with 65536%Z.
  destruct (Z_lt_le_dec z 0) as [Hneg | Hpos].
  - replace (z mod 65536)%Z with (z + 65536)%Z.
    + destruct (Z.ltb_spec (z + 65536) 32768); lia.
    + apply Z.mod_unique with (-1)%Z; lia.
  - rewrite Z.mod_small by lia.
    destruct (Z.ltb_spec z 32768); lia.
Qed.

Lemma Zceil_upper (z : Z) x : x <= IZR z -> (Zceil x <= z)%Z.
Proof.
  intros Hx. pose proof (Zceil_bound x) as [Hlo _].
  assert (Hlt : IZR (Zceil x) < IZR (z + 1)) by (rewrite plus_IZR; lra).
  apply lt_IZR in Hlt. lia.
Qed.

Lemma Zfloor_le_Zceil x : (Zfloor x <= Zceil x)%Z.
Proof.
  pose proof (Zfloor_ceil_bound x) as [Hlo Hhi].
  apply le_IZR. lra.
Qed.

Lemma truncate_between (a b : Z) x :
  IZR a <= x <= IZR b -> (a <= truncate x <= b)%Z.
Proof.
  intros [Ha Hb]. pose proof (Zfloor_le_Zceil x).
  pose proof (Zfloor_lub a x Ha). pose proof (Zceil_upper b x Hb).
  unfold truncate. destruct (Rltb x 0); lia.
Qed.

Lemma truncate_monotone x y : x <= y -> (truncate x <= truncate y)%Z.
Proof.
  intros Hxy. unfold truncate.
  destruct (Rltb x 0) eqn:Hx, (Rltb y 0) eqn:Hy.
  - apply Zceil_le. exact Hxy.
  - apply Rltb_true in Hx. apply Rltb_false in Hy.
    assert (Zceil x <= 0)%Z by (apply Zceil_upper; lra).
    assert (0 <= Zfloor y)%Z by (apply Zfloor_lub; lra). lia.
  - apply Rltb_false in Hx. apply Rltb_true in Hy. lra.
  - apply Zfloor_le. exact Hxy.
Qed.

Lemma wrap_int32_small z :
  (- 2 ^ 31 <= z < 2 ^ 31)%Z -> wrap_int32 z = z.
Proof. intros Hz. unfold wrap_int32. rewrite Z.mod_small; lia. Qed.

(** The clamp of lines 44 and the scaling of line 45, before [| 0]. *)
Lemma clamp_unit s :
  -1 <= Math_max (-1) (Math_min 1 s) <= 1.
Proof.
  unfold Math_max, Math_min. split; [apply Rmax_l|].
  apply Rmax_lub; [lra | apply Rmin_l].
Qed.

Lemma clamp_unit_monotone s t :
  s <= t -> Math_max (-1) (Math_min 1 s) <= Math_max (-1) (Math_min 1 t).
Proof.
  intros Hst. unfold Math_max, Math_min.
  apply Rle_max_compat_l. apply Rle_min_compat_l. exact Hst.
Qed.

Lemma scaled_range c :
  -1 <= c <= 1 ->
  IZR (-32768) <= (if Rltb (0.5 + c) 0 then c * 32768 else c * 32767)
               <= IZR 32767.
Proof.
  intros Hc. destruct (Rltb (0.5 + c) 0) eqn:Hlow.
  - apply Rltb_true in Hlow. lra.
  - apply Rltb_false in Hlow. lra.
Qed.

Lemma scaled_monotone c d :
  c <= d ->
  (if Rltb (0.5 + c) 0 then c * 32768 else c * 32767)
  <= (if Rltb (0.5 + d) 0 then d * 32768 else d * 32767).
Proof.
  intros Hcd.
  destruct (Rltb (0.5 + c) 0) eqn:Hc, (Rltb (0.5 + d) 0) eqn:Hd;
    rewrite ?Rltb_true, ?Rltb_false in *; lra.
Qed.

Lemma encode_sample_truncate s :
  encode_sample s =
  truncate (if Rltb (0.5 + Math_max (-1) (Math_min 1 s)) 0
            then Math_max (-1) (Math_min 1 s) * 32768
            else Math_max (-1) (Math_min 1 s) * 32767).
Proof.
  unfold encode_sample, ToInt32. cbv zeta.
  apply wrap_int32_small.
  pose proof (truncate_between _ _ _ (scaled_range _ (clamp_unit s))). lia.
Qed.

Lemma encode_sample_range s : (-32768 <= encode_sample s <= 32767)%Z.
Proof.
  rewrite encode_sample_truncate.
  apply truncate_between, scaled_range, clamp_unit.
Qed.

(** X1: every sample is encoded as a whole number within the signed
    16-bit range, so neither [| 0] nor [setInt16] wraps it; the encoding
    never decreases as the sample grows, maps 0 to 0, and saturates at
    32767 from +1 up and at -32768 from -1 down. *)
Theorem encode_sample_int16 :
  forall s t : R,
    (-32768 <= encode_sample s <= 32767)%Z /\
    (s <= t -> (encode_sample s <= encode_sample t)%Z) /\
    encode_sample 0 = 0%Z /\
    (1 <= s -> encode_sample s = 32767%Z) /\
    (s <= -1 -> encode_sample s = (-32768)%Z).
Proof.
  intros s t. split; [|split; [|split; [|split]]].
  - rewrite encode_sample_truncate.
    apply truncate_between, scaled_range, clamp_unit.
  - intros Hst. rewrite !encode_sample_truncate.
    apply truncate_monotone, scaled_monotone, clamp_unit_monotone. exact Hst.
  - rewrite encode_sample_truncate. unfold Math_max, Math_min.
    rewrite Rmin_right, Rmax_right by lra.
    replace (Rltb (0.5 + 0) 0) with false by (symmetry; apply Rltb_false; lra).
    replace (0 * 32767) with (IZR 0) by lra. apply truncate_IZR.
  - intros Hs. rewrite encode_sample_truncate. unfold Math_max, Math_min.
    rewrite Rmin_left, Rmax_right by lra.
    replace (Rltb (0.5 + 1) 0) with false by (symmetry; apply Rltb_false; lra).
    replace (1 * 32767) with (IZR 32767) by lra. apply truncate_IZR.
  - intros Hs. rewrite encode_sample_truncate. unfold Math_max, Math_min.
    rewrite Rmin_right by lra. rewrite Rmax_left by lra.
    replace (Rltb (0.5 + -1) 0) with true by (symmetry; apply Rltb_true; lra).
    replace (-1 * 32768) with (IZR (-32768)) by lra. apply truncate_IZR.
Qed.

Lemma encode_sample_int16_witness :
  (encode_sample 0.25 <= encode_sample 3)%Z /\ encode_sample 3 = 32767%Z.
Proof.
  destruct (encode_sample_int16 3 3) as (_ & _ & _ & Hsat & _).
  destruct (encode_sample_int16 0.25 3) as (_ & Hmono & _).
  split; [apply Hmono; lra | apply Hsat; lra].
Defined.

Lemma wave_header_bytes numOfChan sampleRate len :
  Forall is_byte (wave_header numOfChan sampleRate len).
Proof.
  unfold wave_header, le_bytes32, le_bytes16. cbn [app].
  repeat (constructor; [apply byte_at_is_byte; lia|]). constructor.
Qed.

Lemma frame_bytes_bytes abuffer frame : Forall is_byte (frame_bytes abuffer frame).
Proof.
  unfold frame_bytes.
  induction (seq 0 (numberOfChannels abuffer)) as [|c cs IH]; [constructor|].
  cbn [flat_map]. apply Forall_app. split; [|exact IH].
  unfold le_bytes16. repeat (constructor; [apply byte_at_is_byte; lia|]).
  constructor.
Qed.

Lemma frames_bytes abuffer frames :
  Forall is_byte (flat_map (frame_bytes abuffer) frames).
Proof.
  induction frames as [|f fs IH]; [constructor|].
  cbn [flat_map]. apply Forall_app. split; [apply frame_bytes_bytes | exact IH].
Qed.

Lemma zeros_bytes n : Forall is_byte (repeat 0%Z n).
Proof.
  induction n as [|n IH]; [constructor|].
  cbn [repeat]. constructor; [unfold is_byte; lia | exact IH].
Qed.

(** X2: for a frame count that is not negative [bufferToWave] never
    throws; the blob has exactly 44 + len * numberOfChannels * 2 bytes,
    each between 0 and 255; its first 44 bytes are the header, whose size
    field (bytes 4-7) reads back as the blob size minus 8 and whose data
    length field (bytes 40-43) as len * numberOfChannels * 2, both
    modulo 2^32. *)
Theorem bufferToWave_blob :
  forall (abuffer : AudioBuffer) (len : Z),
    (0 <= len)%Z ->
    let nc := Z.of_nat (numberOfChannels abuffer) in
    exists bytes : list Z,
      bufferToWave abuffer len = Some bytes /\
      Z.of_nat (length bytes) = (44 + len * nc * 2)%Z /\
      Forall is_byte bytes /\
      firstn 44 bytes = wave_header nc (sampleRate abuffer) len /\
      le_value (firstn 4 (skipn 4 bytes)) =
        ((44 + len * nc * 2 - 8) mod 2 ^ 32)%Z /\
      le_value (firstn 4 (skipn 40 bytes)) = ((len * nc * 2) mod 2 ^ 32)%Z.
Proof.
  intros abuffer len Hlen nc.
  pose proof (bufferToWave_bytes abuffer len Hlen) as Hbytes. fold nc in Hbytes.
  eexists. split; [exact Hbytes|].
  split; [apply (bufferToWave_length abuffer len _ Hlen Hbytes)|].
  split.
  { apply Forall_app. split; [apply wave_header_bytes|].
    apply Forall_app. split; [apply frames_bytes | apply zeros_bytes]. }
  set (data := flat_map (frame_bytes abuffer) (for_range 44 len)
               ++ repeat 0%Z (2 * numberOfChannels abuffer
                              * Z.to_nat (Z.min 44 len))).
  split.
  { rewrite firstn_app, wave_header_length, Nat.sub_diag, firstn_O, app_nil_r.
    apply firstn_all2. rewrite wave_header_length. lia. }
  unfold wave_header, le_bytes32 at 1 2 3 4 5 6 7, le_bytes16.
  cbn [app skipn firstn].
  split.
  - change [byte_at 0 (36 + len * nc * 2); byte_at 1 (36 + len * nc * 2);
            byte_at 2 (36 + len * nc * 2); byte_at 3 (36 + len * nc * 2)]
      with (le_bytes32 (36 + len * nc * 2)).
    rewrite le_value_bytes32. f_equal. lia.
  - change (firstn 4 (le_bytes32 (len * nc * 2) ++ data))
      with (le_bytes32 (len * nc * 2)).
    apply le_value_bytes32.
Qed.

Lemma bufferToWave_blob_witness :
  exists bytes : list Z,
    bufferToWave click_track 45 = Some bytes /\
    Z.of_nat (length bytes) = 134%Z.
Proof.
  destruct (bufferToWave_blob click_track 45) as (bytes & H1 & H2 & _).
  - lia.
  - exists bytes. split; [exact H1 | exact H2].
Defined.

(** X3: after the header the blob holds the frames from 44 on, in order
    and channel-interleaved, and then zeros for the 44 frames (or [len]
    frames, if fewer) that are never written: the sample loop reads the
    frame index from [pos], which the header has left at 44.  A buffer of
    up to 44 frames is exported as silence. *)
Theorem bufferToWave_data_section :
  forall (abuffer : AudioBuffer) (len : Z),
    (0 <= len)%Z ->
    exists bytes : list Z,
      bufferToWave abuffer len = Some bytes /\
      skipn 44 bytes =
        flat_map (frame_bytes abuffer) (for_range 44 len)
        ++ repeat 0%Z (2 * numberOfChannels abuffer * Z.to_nat (Z.min 44 len)) /\
      ((len <= 44)%Z ->
       skipn 44 bytes =
       repeat 0%Z (Z.to_nat (len * Z.of_nat (numberOfChannels abuffer) * 2))).
Proof.
  intros abuffer len Hlen.
  pose proof (bufferToWave_bytes abuffer len Hlen) as Hbytes.
  eexists. split; [exact Hbytes|].
  assert (Hskip : forall data,
             skipn 44 (wave_header (Z.of_nat (numberOfChannels abuffer))
                                   (sampleRate abuffer) len ++ data) = data).
  { intros data. rewrite skipn_app, wave_header_length.
    rewrite skipn_all2 by (rewrite wave_header_length; lia).
    reflexivity. }
  rewrite Hskip. split; [reflexivity|].
  intros Hshort. rewrite for_range_nil by lia. cbn [flat_map app].
  f_equal. nia.
Qed.

Lemma bufferToWave_data_section_witness :
  exists bytes : list Z,
    bufferToWave mono_blip 2 = Some bytes /\
    skipn 44 bytes = repeat 0%Z 4.
Proof.
  destruct (bufferToWave_data_section mono_blip 2) as (bytes & H1 & _ & H3).
  - lia.
  - exists bytes. split; [exact H1 | apply H3; lia].
Defined.

(** X4: the two bytes written for a sample are the sample's 16-bit
    encoding, least significant byte first: read back as a signed 16-bit
    number they give the encoded sample. *)
Theorem sample_bytes_round_trip :
  forall s : R,
    Forall is_byte (le_bytes16 (encode_sample s)) /\
    as_int16 (le_value (le_bytes16 (encode_sample s))) = encode_sample s.
Proof.
  intros s. split.
  - unfold le_bytes16. repeat (constructor; [apply byte_at_is_byte; lia|]).
    constructor.
  - rewrite le_value_bytes16. apply as_int16_wrap.
    apply encode_sample_range.
Qed.

(** ** More on calculateAudioStats: the window and the statistics *)





Lemma calculateAudioStats_acc buffer :
  calculateAudioStats buffer =
  let acc := stats_acc buffer in
  let rms := sqrt (acc_sumSquares acc / IZR (Z.max 1 (sampleSize buffer))) in
  let rmsDb := 20 * Math_log10 (or_default rms 0.000001) in
  let peakDb := 20 * Math_log10 (or_default (acc_peak acc) 0.000001) in
  let totalSpec := acc_lowSum acc + acc_highSum acc in
  mkAudioStats (duration buffer) (sampleRate buffer) (numberOfChannels buffer)
    rmsDb peakDb (peakDb - rmsDb)
    (acc_lowSum acc / or_default totalSpec 1) 0.5
    (acc_highSum acc / or_default totalSpec 1)
    (acc_subSum acc / (IZR (Z.max 1 (sampleSize buffer)) / 10))
    (Math_max (-1)
       (Math_min 1 (acc_stereoSum acc / or_default (acc_sumSquares acc) 1))).
Proof. reflexivity. Qed.





Lemma div_nonneg a b : 0 <= a -> 0 < b -> 0 <= a / b.
Proof.
  intros Ha Hb. unfold Rdiv. apply Rmult_le_pos; [exact Ha|].
  left. apply Rinv_0_lt_compat. exact Hb.
Qed.




Lemma Rgtb_refl_false x : Rgtb x x = false.
Proof. apply Rgtb_false. apply Rle_refl. Qed.

Lemma typed_get_repeat_zero n i : typed_get (repeat 0 n) i = 0.
Proof.
  unfold typed_get. destruct (i <? 0)%Z; [reflexivity|]. apply nth_repeat.
Qed.

Lemma stats_step_silent left right start i :
  typed_get left i = 0 -> typed_get right i = 0 ->
  ((start < i)%Z -> typed_get left (i - 1) = 0) ->
  stats_step left right start stats_init i = stats_init.
Proof.
  intros HL HR Hprev. unfold stats_step, stats_init. cbv zeta.
  rewrite HL, HR. cbn [acc_peak acc_sumSquares acc_stereoSum acc_lowSum
                       acc_highSum acc_subSum].
  replace ((0 + 0) / 2) with 0 by lra.
  unfold Math_abs. rewrite Rabs_R0, Rgtb_refl_false.
  destruct (Z.ltb_spec start i) as [Hlt | Hge].
  - rewrite (Hprev Hlt). replace (0 - 0) with 0 by lra. rewrite Rabs_R0.
    replace (Rgtb 0 0.1) with false by (symmetry; apply Rgtb_false; lra).
    destruct (Z.rem i 10 =? 0)%Z; f_equal; lra.
  - f_equal; lra.
Qed.

Lemma stats_acc_silent buffer :
  (forall i : Z,
     (actualStart buffer <= i < analysisEnd buffer)%Z ->
     typed_get (getChannelData buffer 0) i = 0 /\
     typed_get (getChannelData buffer 1) i = 0) ->
  stats_acc buffer = stats_init.
Proof.
  intros Hsilent. unfold stats_acc. cbv zeta.
  set (left := getChannelData buffer 0).
  set (right := if (1 <? numberOfChannels buffer)%nat
                then getChannelData buffer 1 else left).
  assert (Hright : forall i,
             (actualStart buffer <= i < analysisEnd buffer)%Z ->
             typed_get right i = 0).
  { intros i Hi. unfold right. destruct (1 <? numberOfChannels buffer)%nat;
      apply (Hsilent i Hi). }
  assert (H : forall idxs,
             (forall i, In i idxs ->
                        (actualStart buffer <= i < analysisEnd buffer)%Z) ->
             fold_left (stats_step left right (actualStart buffer)) idxs
                       stats_init = stats_init).
  { induction idxs as [|i idxs IH]; intros Hin; [reflexivity|].
    cbn [fold_left]. rewrite stats_step_silent.
    - apply IH. intros j Hj. apply Hin. right. exact Hj.
    - apply Hsilent, Hin. left. reflexivity.
    - apply Hright, Hin. left. reflexivity.
    - intros Hlt. apply Hsilent.
      pose proof (Hin i (or_introl eq_refl)). lia. }
  apply H. intros i Hi. apply In_for_range. exact Hi.
Qed.

(** X7: a buffer that is silent in the analysed window (an empty buffer
    included) measures -120 dB for both RMS and peak (the levels of the
    substitute 0.000001), a crest factor of 0, no correlation and no
    spectral energy, and scores 80: only the penalty for a crest factor
    below 4 applies. *)
Theorem calculateAudioStats_silence :
  forall buffer : AudioBuffer,
    (forall i : Z,
       (actualStart buffer <= i < analysisEnd buffer)%Z ->
       typed_get (getChannelData buffer 0) i = 0 /\
       typed_get (getChannelData buffer 1) i = 0) ->
    let stats := calculateAudioStats buffer in
    rms stats = -120 /\ peak stats = -120 /\ crestFactor stats = 0 /\
    stereoCorrelation stats = 0 /\
    lowEnergy stats = 0 /\ highEnergy stats = 0 /\ subBassEnergy stats = 0 /\
    calculateProductionScore stats = 80%Z.
Proof.
  intros buffer Hsilent stats.
  assert (Hstats :
    rms stats = -120 /\ peak stats = -120 /\ crestFactor stats = 0 /\
    stereoCorrelation stats = 0 /\
    lowEnergy stats = 0 /\ highEnergy stats = 0 /\ subBassEnergy stats = 0).
  { subst stats. rewrite calculateAudioStats_acc. cbv zeta.
    rewrite (stats_acc_silent buffer Hsilent).
    cbn [rms peak crestFactor stereoCorrelation lowEnergy highEnergy
         subBassEnergy stats_init acc_peak acc_sumSquares acc_stereoSum
         acc_lowSum acc_highSum acc_subSum].
    replace (0 / IZR (Z.max 1 (sampleSize buffer))) with 0
      by (unfold Rdiv; lra).
    replace (0 + 0) with 0 by lra.
    rewrite sqrt_0, !or_default_zero, Math_log10_millionth.
    unfold Math_max, Math_min.
    replace (0 / 1) with 0 by lra.
    rewrite (Rmin_right 1 0), (Rmax_right (-1) 0) by lra.
    repeat split; unfold Rdiv; lra. }
  destruct Hstats as (Hr & Hp & Hc & Hs & Hl & Hh & Hb).
  repeat (split; [assumption|]).
  unfold calculateProductionScore. cbv zeta.
  rewrite Math_floor_IZR, Hp, Hc, Hs.
  replace (Rgtb (-120) (-0.1)) with false by (symmetry; apply Rgtb_false; lra).
  replace (Rltb 0 4) with true by (symmetry; apply Rltb_true; lra).
  replace (Rgtb 0 15) with false by (symmetry; apply Rgtb_false; lra).
  replace (Rltb 0 0) with false by (symmetry; apply Rltb_false; lra).
  replace (Rgtb 0 0.95) with false by (symmetry; apply Rgtb_false; lra).
  reflexivity.
Qed.

Lemma one_minute_silent i :
  typed_get (getChannelData one_minute 0) i = 0 /\
  typed_get (getChannelData one_minute 1) i = 0.
Proof.
  split.
  - apply typed_get_repeat_zero.
  - apply (typed_get_repeat_zero 0).
Defined.

Lemma calculateAudioStats_silence_witness :
  peak (calculateAudioStats one_minute) = -120 /\
  calculateProductionScore (calculateAudioStats one_minute) = 80%Z.
Proof.
  destruct (calculateAudioStats_silence one_minute
              (fun i _ => one_minute_silent i))
    as (_ & Hp & _ & _ & _ & _ & _ & Hscore).
  split; [exact Hp | exact Hscore].
Defined.







(** ** More on calculateProductionScore and makeDistortionCurve *)

(** X9: whatever the statistics, the score is a multiple of 5 between 10
    and 100, so the final clamp to [0,100] never changes it; and it is 100
    exactly when no penalty applies: peak at most -0.1 dB, crest factor
    between 4 and 15, correlation between 0 and 0.95. *)
Theorem calculateProductionScore_bounds :
  forall stats : AudioStats,
    (10 <= calculateProductionScore stats <= 100)%Z /\
    (calculateProductionScore stats mod 5 = 0)%Z /\
    (calculateProductionScore stats = 100%Z <->
     peak stats <= -0.1 /\ 4 <= crestFactor stats <= 15 /\
     0 <= stereoCorrelation stats <= 0.95).
Proof.
  intros stats. split; [apply calculateProductionScore_range|].
  unfold calculateProductionScore. cbv zeta. rewrite Math_floor_IZR.
  destruct (Rgtb (peak stats) (-0.1)) eqn:P;
    destruct (Rltb (crestFactor stats) 4) eqn:C4;
    destruct (Rgtb (crestFactor stats) 15) eqn:C15;
    destruct (Rltb (stereoCorrelation stats) 0) eqn:S0;
    destruct (Rgtb (stereoCorrelation stats) 0.95) eqn:S95;
    (split; [reflexivity|]);
    rewrite ?Rltb_true, ?Rgtb_true, ?Rltb_false, ?Rgtb_false in *;
    (split; [intros Heq; try discriminate Heq; repeat split; lra
            | intros (H1 & [H2 H3] & [H4 H5]); try reflexivity; lra]).
Qed.





(** ** More on detectBPM: the peak picker, the histogram and the fold *)

Lemma In_stride_range n step i :
  (0 < step)%Z ->
  In i (stride_range n step) -> (0 <= i < n)%Z /\ (step | i)%Z.
Proof.
  intros Hstep. unfold stride_range. rewrite in_map_iff.
  intros (k & <- & Hk). apply in_seq in Hk.
  pose proof (Z.mul_div_le (n + step - 1) step Hstep) as Hq.
  destruct (Z_le_gt_dec ((n + step - 1) / step) 0) as [Hle | Hgt]; [lia|].
  split; [|exists (Z.of_nat k); reflexivity].
  assert (Z.of_nat k + 1 <= (n + step - 1) / step)%Z by lia.
  nia.
Qed.

(** What every peak is, and what the list of peaks ends with. *)
Lemma peak_step_grid data peaks i :
  (0 <= i < Z.of_nat (length data))%Z -> (1000 | i)%Z ->
  Forall (fun p => (0 <= p < Z.of_nat (length data))%Z /\ (1000 | p)%Z /\
                   threshold < typed_get data p) peaks ->
  Forall (fun p => (0 <= p < Z.of_nat (length data))%Z /\ (1000 | p)%Z /\
                   threshold < typed_get data p) (peak_step data peaks i).
Proof.
  intros Hi Hdiv Hall. unfold peak_step.
  destruct (Rgtb (typed_get data i) threshold) eqn:Hgt; cbn [andb];
    [|exact Hall].
  apply Rgtb_true in Hgt.
  assert (Hnew : Forall (fun p => (0 <= p < Z.of_nat (length data))%Z /\
                                  (1000 | p)%Z /\
                                  threshold < typed_get data p)
                        (peaks ++ [i])).
  { apply Forall_app. split; [exact Hall|].
    constructor; [|constructor]. repeat split; try assumption; lia. }
  destruct peaks as [|a rest]; [exact Hnew|].
  destruct (2000 <? i - last (a :: rest) 0)%Z; [exact Hnew | exact Hall].
Qed.

Lemma find_peaks_on_grid data :
  Forall (fun p => (0 <= p < Z.of_nat (length data))%Z /\ (1000 | p)%Z /\
                   threshold < typed_get data p) (find_peaks data).
Proof.
  unfold find_peaks.
  assert (H : forall idxs peaks,
             (forall i, In i idxs ->
                        (0 <= i < Z.of_nat (length data))%Z /\ (1000 | i)%Z) ->
             Forall (fun p => (0 <= p < Z.of_nat (length data))%Z /\
                              (1000 | p)%Z /\
                              threshold < typed_get data p) peaks ->
             Forall (fun p => (0 <= p < Z.of_nat (length data))%Z /\
                              (1000 | p)%Z /\
                              threshold < typed_get data p)
                    (fold_left (peak_step data) idxs peaks)).
  { induction idxs as [|i idxs IH]; intros peaks Hin Hall; [exact Hall|].
    cbn [fold_left]. apply IH.
    - intros j Hj. apply Hin. right. exact Hj.
    - destruct (Hin i (or_introl eq_refl)) as [Hi Hdiv].
      apply peak_step_grid; assumption. }
  apply H; [|constructor].
  intros i Hi. apply In_stride_range in Hi; [exact Hi | lia].
Qed.

Lemma intervals_of_divide m peaks :
  Forall (fun p => (m | p)%Z) peaks ->
  Forall (fun d => (m | d)%Z) (intervals_of peaks).
Proof.
  induction peaks as [|a [|b rest] IH]; intros Hall; [constructor|constructor|].
  inversion Hall as [|x l Ha Hrest]; subst.
  inversion Hrest as [|y l' Hb _]; subst.
  change (intervals_of (a :: b :: rest))
    with ((b - a)%Z :: intervals_of (b :: rest)).
  constructor; [apply Z.divide_sub_r; assumption | apply IH; exact Hrest].
Qed.

Lemma find_peaks_intervals data :
  Forall (fun d => (3000 <= d)%Z /\ (1000 | d)%Z)
         (intervals_of (find_peaks data)).
Proof.
  pose proof (find_peaks_spaced data) as Hs. unfold spaced in Hs.
  assert (Hd : Forall (fun d => (1000 | d)%Z) (intervals_of (find_peaks data))).
  { apply intervals_of_divide.
    eapply Forall_impl; [|apply find_peaks_on_grid].
    intros p (_ & Hp & _). exact Hp. }
  rewrite Forall_forall in *. intros d Hin.
  pose proof (Hs d Hin) as Hgap. pose proof (Hd d Hin) as [k Hk].
  split; [lia | exists k; exact Hk].
Qed.

Lemma quantize_thousands d : (1000 | d)%Z -> quantize d = d.
Proof.
  intros [k ->].
  replace (k * 1000)%Z with (100 * (k * 10))%Z by lia.
  apply quantize_hundreds.
Qed.

(** X11: the peak picker only looks at every 1000th sample, so each peak
    is a multiple of 1000 inside the data whose sample exceeds 0.4, and
    two consecutive peaks are a multiple of 1000 and at least 3000 samples
    apart.  Rounding such an interval to the nearest 100 leaves it as it
    is: the histogram is keyed by the intervals themselves. *)
Theorem find_peaks_grid :
  forall data : list R,
    let peaks := find_peaks data in
    Forall (fun p => (0 <= p < Z.of_nat (length data))%Z /\
                     (p mod 1000 = 0)%Z /\
                     typed_get data p > threshold) peaks /\
    Forall (fun d => (3000 <= d)%Z /\ (d mod 1000 = 0)%Z /\ quantize d = d)
           (intervals_of peaks) /\
    count_intervals (intervals_of peaks) =
      fold_left (fun counts int => counts_incr int counts)
                (intervals_of peaks) [].
Proof.
  intros data peaks. subst peaks. split; [|split].
  - eapply Forall_impl; [|apply find_peaks_on_grid].
    intros p (Hp & Hdiv & Hgt). split; [exact Hp|]. split; [|exact Hgt].
    apply Z.mod_divide; [lia | exact Hdiv].
  - eapply Forall_impl; [|apply find_peaks_intervals].
    intros d (Hd & Hdiv). split; [exact Hd|].
    split; [apply Z.mod_divide; [lia | exact Hdiv]|].
    apply quantize_thousands. exact Hdiv.
  - unfold count_intervals.
    pose proof (find_peaks_intervals data) as Hall.
    generalize (@nil (Z * Z)).
    induction (intervals_of (find_peaks data)) as [|d ints IH];
      intros counts; [reflexivity|].
    inversion Hall as [|x l [_ Hdiv] Hrest]; subst.
    cbn [fold_left]. rewrite (quantize_thousands d Hdiv).
    apply IH. exact Hrest.
Qed.

Lemma count_of_incr q counts q' :
  count_of (counts_incr q counts) q' =
  (count_of counts q' + (if (q' =? q)%Z then 1 else 0))%Z.
Proof.
  induction counts as [|[k c] rest IH]; cbn [counts_incr count_of].
  - lia.
  - destruct (Z.eqb_spec q k) as [-> | Hne].
    + cbn [count_of]. destruct (q' =? k)%Z; lia.
    + destruct (q <? k)%Z; cbn [count_of]; [lia|].
      rewrite IH. lia.
Qed.

Lemma counts_incr_keys q counts k :
  In k (map fst (counts_incr q counts)) -> k = q \/ In k (map fst counts).
Proof.
  induction counts as [|[k0 c] rest IH]; cbn [counts_incr].
  - intros [<- | []]. left. reflexivity.
  - destruct (q =? k0)%Z; [intros H; right; exact H|].
    destruct (q <? k0)%Z.
    + intros [<- | H]; [left; reflexivity | right; exact H].
    + intros [<- | H]; [right; left; reflexivity|].
      destruct (IH H) as [-> | Hin]; [left; reflexivity | right; right; exact Hin].
Qed.

Lemma counts_incr_ok q counts : counts_ok counts -> counts_ok (counts_incr q counts).
Proof.
  intros [Hsorted Hpos]. induction counts as [|[k c] rest IH].
  - split; repeat constructor. cbn. lia.
  - cbn [map fst] in Hsorted.
    apply StronglySorted_inv in Hsorted. destruct Hsorted as [Hrest Hk].
    inversion Hpos as [|x l Hc Hpos']; subst. cbn [snd] in Hc.
    destruct (IH Hrest Hpos') as [IHs IHp].
    cbn [counts_incr].
    destruct (Z.eqb_spec q k) as [-> | Hne].
    + split; [constructor; assumption|].
      constructor; [cbn; lia | exact Hpos'].
    + destruct (Z.ltb_spec q k) as [Hlt | Hge].
      * split.
        -- cbn [map fst]. constructor; [constructor; assumption|].
           constructor; [exact Hlt|].
           eapply Forall_impl; [|exact Hk]. cbn. intros a Ha. lia.
        -- constructor; [cbn; lia | exact Hpos].
      * split.
        -- cbn [map fst]. constructor; [exact IHs|].
           apply Forall_forall. intros k' Hin.
           destruct (counts_incr_keys _ _ _ Hin) as [-> | Hin'].
           ++ lia.
           ++ rewrite Forall_forall in Hk. apply Hk. exact Hin'.
        -- constructor; [exact Hc | exact IHp].
Qed.

(** The histogram holds, for every bucket, the number of intervals that
    fall into it. *)
Lemma count_intervals_spec intervals :
  counts_ok (count_intervals intervals) /\
  forall q, count_of (count_intervals intervals) q =
            occurrences q (map quantize intervals).
Proof.
  unfold count_intervals.
  assert (H : forall ints counts,
             counts_ok counts ->
             let counts' :=
               fold_left (fun counts int => counts_incr (quantize int) counts)
                         ints counts in
             counts_ok counts' /\
             forall q, count_of counts' q =
                       (count_of counts q
                        + occurrences q (map quantize ints))%Z).
  { induction ints as [|d ints IH]; intros counts Hok; cbv zeta.
    - split; [exact Hok|]. intros q. unfold occurrences. cbn. lia.
    - cbn [fold_left].
      destruct (IH (counts_incr (quantize d) counts)) as [Hok' Hcount];
        [apply counts_incr_ok; exact Hok|].
      split; [exact Hok'|]. intros q.
      rewrite Hcount, count_of_incr. unfold occurrences. cbn [map count_occ].
      destruct (Z.eq_dec (quantize d) q) as [-> | Hne].
      + rewrite Z.eqb_refl. lia.
      + replace (q =? quantize d)%Z with false
          by (symmetry; apply Z.eqb_neq; congruence).
        lia. }
  destruct (H intervals []) as [Hok Hcount].
  { split; constructor. }
  split; [exact Hok|]. intros q. rewrite Hcount. reflexivity.
Qed.

Lemma count_of_notin counts q :
  ~ In q (map fst counts) -> count_of counts q = 0%Z.
Proof.
  induction counts as [|[k c] rest IH]; intros Hnot; [reflexivity|].
  cbn [count_of]. cbn [map fst In] in Hnot.
  replace (q =? k)%Z with false by (symmetry; apply Z.eqb_neq; intuition).
  rewrite IH by intuition. reflexivity.
Qed.

Lemma count_of_in counts q c :
  StronglySorted Z.lt (map fst counts) -> In (q, c) counts ->
  count_of counts q = c.
Proof.
  induction counts as [|[k c0] rest IH]; intros Hsorted Hin; [destruct Hin|].
  cbn [map fst] in Hsorted. apply StronglySorted_inv in Hsorted.
  destruct Hsorted as [Hrest Hk]. rewrite Forall_forall in Hk.
  cbn [count_of]. destruct Hin as [Heq | Hin].
  - inversion Heq; subst. rewrite Z.eqb_refl.
    rewrite count_of_notin; [lia|].
    intros Hin. apply Hk in Hin. lia.
  - assert (Hlt : (k < q)%Z).
    { apply Hk. apply (in_map fst) in Hin. exact Hin. }
    replace (q =? k)%Z with false by (symmetry; apply Z.eqb_neq; lia).
    rewrite (IH Hrest Hin). lia.
Qed.

(** The scan keeps the first entry with the largest count. *)
Lemma mode_fold cs : forall m b,
  StronglySorted Z.lt (map fst cs) ->
  let acc' := fold_left mode_step cs (m, b) in
  (m <= fst acc')%Z /\
  Forall (fun entry => (snd entry <= fst acc')%Z) cs /\
  ((fst acc' = m /\ snd acc' = b) \/
   ((m < fst acc')%Z /\ In (snd acc', fst acc') cs /\
    forall entry, In entry cs -> snd entry = fst acc' ->
                  (snd acc' <= fst entry)%Z)).
Proof.
  induction cs as [|[k c] rest IH]; intros m b Hsorted; cbv zeta.
  - cbn [fold_left fst snd]. split; [lia|]. split; [constructor|].
    left. split; reflexivity.
  - cbn [map fst] in Hsorted. apply StronglySorted_inv in Hsorted.
    destruct Hsorted as [Hrest Hk]. rewrite Forall_forall in Hk.
    cbn [fold_left].
    change (mode_step (m, b) (k, c))
      with (if (m <? c)%Z then (c, k) else (m, b)).
    destruct (Z.ltb_spec m c) as [Hlt | Hge].
    + destruct (IH c k Hrest) as (H1 & H2 & H3).
      set (acc' := fold_left mode_step rest (c, k)) in *.
      split; [lia|]. split; [constructor; [cbn; lia | exact H2]|].
      right. split; [lia|].
      destruct H3 as [[Hm Hb] | (Hgt & Hin & Hfirst)].
      * split; [left; rewrite Hm, Hb; reflexivity|].
        intros entry [<- | Hin] Heq; rewrite Hb; cbn [fst]; [lia|].
        apply (in_map fst) in Hin. apply Hk in Hin. lia.
      * split; [right; exact Hin|].
        intros entry [<- | Hin'] Heq; [cbn [snd] in Heq; lia|].
        apply Hfirst; assumption.
    + destruct (IH m b Hrest) as (H1 & H2 & H3).
      set (acc' := fold_left mode_step rest (m, b)) in *.
      split; [exact H1|]. split; [constructor; [cbn; lia | exact H2]|].
      destruct H3 as [[Hm Hb] | (Hgt & Hin & Hfirst)].
      * left. split; assumption.
      * right. split; [exact Hgt|]. split; [right; exact Hin|].
        intros entry [<- | Hin'] Heq; [cbn [snd] in Heq; lia|].
        apply Hfirst; assumption.
Qed.

Lemma best_interval_mode_of intervals :
  let qs := map quantize intervals in
  let best := best_interval (count_intervals intervals) in
  (intervals = [] -> best = 0%Z) /\
  (intervals <> [] ->
   In best qs /\
   (forall q, (occurrences q qs <= occurrences best qs)%Z) /\
   (forall q, occurrences q qs = occurrences best qs -> (best <= q)%Z)).
Proof.
  cbv zeta. split; [intros ->; reflexivity|]. intros Hne.
  destruct (count_intervals_spec intervals) as [[Hsorted Hpos] Hcount].
  unfold best_interval.
  destruct (mode_fold (count_intervals intervals) 0 0 Hsorted)
    as (H1 & H2 & H3).
  set (counts := count_intervals intervals) in *.
  set (acc' := fold_left mode_step counts (0%Z, 0%Z)) in *.
  rewrite Forall_forall in H2, Hpos.
  assert (Hhead : exists d, In d intervals)
    by (destruct intervals as [|d l]; [congruence | exists d; left; reflexivity]).
  destruct Hhead as [d Hd].
  assert (Hocc : (1 <= occurrences (quantize d) (map quantize intervals))%Z).
  { unfold occurrences.
    assert (count_occ Z.eq_dec (map quantize intervals) (quantize d) > 0)%nat
      by (apply count_occ_In, in_map, Hd).
    lia. }
  assert (Hkey : In (quantize d) (map fst counts)).
  { destruct (in_dec Z.eq_dec (quantize d) (map fst counts)) as [Hin | Hnot];
      [exact Hin|].
    apply count_of_notin in Hnot. rewrite Hcount in Hnot. lia. }
  apply in_map_iff in Hkey. destruct Hkey as ([k c] & Hk & Hentry).
  cbn [fst] in Hk. subst k.
  pose proof (H2 _ Hentry) as Hle. pose proof (Hpos _ Hentry) as Hc.
  cbn [snd] in Hle, Hc.
  destruct H3 as [[Hm _] | (_ & Hin & Hfirst)]; [lia|].
  assert (Hbest : occurrences (snd acc') (map quantize intervals) = fst acc').
  { rewrite <- Hcount. apply count_of_in; assumption. }
  split; [|split].
  - apply (count_occ_In Z.eq_dec). unfold occurrences in Hbest. lia.
  - intros q. rewrite Hbest, <- Hcount.
    destruct (in_dec Z.eq_dec q (map fst counts)) as [Hq | Hq].
    + apply in_map_iff in Hq. destruct Hq as ([k' c'] & Hk' & Hentry').
      cbn [fst] in Hk'. subst k'.
      rewrite (count_of_in _ _ _ Hsorted Hentry').
      apply (H2 _ Hentry').
    + rewrite count_of_notin by exact Hq. lia.
  - intros q Heq. rewrite Hbest, <- Hcount in Heq.
    destruct (in_dec Z.eq_dec q (map fst counts)) as [Hq | Hq].
    + apply in_map_iff in Hq. destruct Hq as ([k' c'] & Hk' & Hentry').
      cbn [fst] in Hk'. subst k'.
      rewrite (count_of_in _ _ _ Hsorted Hentry') in Heq.
      apply (Hfirst _ Hentry'). exact Heq.
    + rewrite count_of_notin in Heq by exact Hq. lia.
Qed.

(** X12: the interval [detectBPM] turns into a tempo is the most frequent
    distance between consecutive peaks, and among equally frequent
    distances the shortest one (the object's whole-number keys are listed
    in ascending order and only a strictly larger count replaces the
    current best); it is 0 exactly when there are fewer than two peaks. *)
Theorem best_interval_most_frequent :
  forall data : list R,
    let intervals := intervals_of (find_peaks data) in
    let bestInterval := best_interval (count_intervals intervals) in
    (bestInterval = 0%Z <-> intervals = []) /\
    (intervals <> [] ->
     In bestInterval intervals /\
     (forall d, (occurrences d intervals <= occurrences bestInterval intervals)%Z) /\
     (forall d, occurrences d intervals = occurrences bestInterval intervals ->
                (bestInterval <= d)%Z)).
Proof.
  intros data intervals bestInterval.
  pose proof (find_peaks_intervals data) as Hall.
  fold intervals in Hall.
  assert (Hq : map quantize intervals = intervals).
  { rewrite <- (map_id intervals) at 2. apply map_ext_in.
    intros d Hd. rewrite Forall_forall in Hall.
    apply quantize_thousands, (Hall d Hd). }
  destruct (best_interval_mode_of intervals) as [Hnil Hcons].
  rewrite Hq in Hcons. fold bestInterval in Hnil, Hcons.
  split; [|exact Hcons].
  split; [|exact Hnil].
  intros Hzero. destruct intervals as [|d l] eqn:Hi; [reflexivity|].
  destruct Hcons as (Hin & _); [discriminate|].
  rewrite Forall_forall in Hall. apply Hall in Hin. lia.
Qed.









(** ** More on analyzeKeyReal: the lag search and the note name *)

Lemma for_range_sorted lo hi : StronglySorted Z.lt (for_range lo hi).
Proof.
  remember (Z.to_nat (hi - lo)) as n eqn:Hn. revert lo Hn.
  induction n as [|n IH]; intros lo Hn.
  - rewrite for_range_nil by lia. constructor.
  - rewrite for_range_cons by lia. constructor.
    + apply IH. lia.
    + apply Forall_forall. intros x Hx. apply In_for_range in Hx. lia.
Qed.

(** The search keeps the first lag with the largest positive
    correlation. *)
Lemma lag_fold data offsets : forall b m,
  StronglySorted Z.lt offsets ->
  let acc' := fold_left (lag_step data) offsets (b, m) in
  m <= snd acc' /\
  Forall (fun o => correlation_at data o <= snd acc') offsets /\
  (acc' = (b, m) \/
   (m < snd acc' /\ In (fst acc') offsets /\
    snd acc' = correlation_at data (fst acc') /\
    forall o, In o offsets -> correlation_at data o = snd acc' ->
              (fst acc' <= o)%Z)).
Proof.
  induction offsets as [|o offsets IH]; intros b m Hsorted; cbv zeta.
  - cbn [fold_left snd]. split; [apply Rle_refl|]. split; [constructor|].
    left. reflexivity.
  - apply StronglySorted_inv in Hsorted. destruct Hsorted as [Hrest Hk].
    rewrite Forall_forall in Hk. cbn [fold_left].
    change (lag_step data (b, m) o)
      with (if Rgtb (correlation_at data o) m
            then (o, correlation_at data o) else (b, m)).
    destruct (Rgtb (correlation_at data o) m) eqn:Hgt.
    + apply Rgtb_true in Hgt.
      destruct (IH o (correlation_at data o) Hrest) as (H1 & H2 & H3).
      set (acc' := fold_left (lag_step data) offsets
                             (o, correlation_at data o)) in *.
      split; [lra|]. split; [constructor; assumption|].
      right. split; [lra|].
      destruct H3 as [Hsame | (Hlt & Hin & Hcorr & Hfirst)].
      * rewrite Hsame. cbn [fst snd].
        split; [left; reflexivity|]. split; [reflexivity|].
        intros o' [<- | Hin] _; [lia|]. apply Hk in Hin. lia.
      * split; [right; exact Hin|]. split; [exact Hcorr|].
        intros o' [<- | Hin'] Heq; [lra|]. apply Hfirst; assumption.
    + apply Rgtb_false in Hgt.
      destruct (IH b m Hrest) as (H1 & H2 & H3).
      set (acc' := fold_left (lag_step data) offsets (b, m)) in *.
      split; [exact H1|]. split; [constructor; [lra | exact H2]|].
      destruct H3 as [Hsame | (Hlt & Hin & Hcorr & Hfirst)];
        [left; exact Hsame|].
      right. split; [exact Hlt|]. split; [right; exact Hin|].
      split; [exact Hcorr|].
      intros o' [<- | Hin'] Heq; [lra|]. apply Hfirst; assumption.
Qed.

Lemma lags_nonneg sampleRate offset :
  (0 < sampleRate)%Z -> In offset (lags sampleRate) -> (0 <= offset)%Z.
Proof.
  intros Hsr Hin. unfold lags, Math_floor in Hin.
  apply In_for_range in Hin. destruct Hin as [Hlo _].
  assert (0 <= Zfloor (IZR sampleRate / 1000))%Z; [|lia].
  apply Zfloor_lub. apply IZR_lt in Hsr. lra.
Qed.

Lemma lags_pos sampleRate offset :
  (1000 <= sampleRate)%Z -> In offset (lags sampleRate) -> (0 < offset)%Z.
Proof.
  intros Hsr Hin. unfold lags, Math_floor in Hin.
  apply In_for_range in Hin. destruct Hin as [Hlo _].
  assert (1 <= Zfloor (IZR sampleRate / 1000))%Z; [|lia].
  apply Zfloor_lub. apply IZR_le in Hsr. lra.
Qed.

Lemma note_name_NOTES noteIndex :
  (0 <= noteIndex < 12)%Z -> In (note_name noteIndex) NOTES.
Proof.
  intros Hi. unfold note_name.
  replace (noteIndex <? 0)%Z with false by (symmetry; apply Z.ltb_ge; lia).
  apply nth_In. change (length NOTES) with 12%nat. lia.
Qed.

Lemma note_of_freq_NOTES freq : 40 <= freq -> In (note_of_freq freq) NOTES.
Proof.
  intros Hf. rewrite note_of_freq_unfold. apply note_name_NOTES.
  assert (Hlow : (-60 <= Math_round (noteNum_of freq))%Z).
  { apply Math_round_lower. pose proof (noteNum_of_lower freq Hf). lra. }
  rewrite Z.rem_mod_nonneg by lia.
  apply Z.mod_pos_bound. lia.
Qed.

(** X14: the lag [analyzeKeyReal] settles on.  It stays at -1 exactly when
    no lag of the search has a positive autocorrelation; otherwise it is
    the lag with the largest autocorrelation, the smallest one among
    equals.  The result is always "Unknown" or one of the twelve note
    names, and at a sample rate of at least 1000 Hz every lag found gives
    a note name: the fallback after the table lookup is never used. *)
Theorem key_of_rendered_note :
  forall (sampleRate : Z) (data : list R),
    (0 < sampleRate)%Z ->
    let bestOffset := best_offset sampleRate data in
    let key := key_of_rendered sampleRate data in
    (bestOffset = (-1)%Z <->
     forall offset, In offset (lags sampleRate) ->
                    correlation_at data offset <= 0) /\
    (bestOffset <> (-1)%Z ->
     In bestOffset (lags sampleRate) /\
     0 < correlation_at data bestOffset /\
     (forall offset, In offset (lags sampleRate) ->
        correlation_at data offset <= correlation_at data bestOffset) /\
     (forall offset, In offset (lags sampleRate) ->
        correlation_at data offset = correlation_at data bestOffset ->
        (bestOffset <= offset)%Z)) /\
    (key = "Unknown"%string \/ In key NOTES) /\
    ((1000 <= sampleRate)%Z -> bestOffset <> (-1)%Z ->
     key = note_of_freq (IZR sampleRate / IZR bestOffset) /\ In key NOTES).
Proof.
  intros sampleRate data Hsr bestOffset key.
  destruct (lag_fold data (lags sampleRate) (-1) 0
                     (for_range_sorted _ _)) as (H1 & H2 & H3).
  rewrite Forall_forall in H2.
  assert (Hfound :
    bestOffset <> (-1)%Z ->
    In bestOffset (lags sampleRate) /\
    0 < correlation_at data bestOffset /\
    (forall offset, In offset (lags sampleRate) ->
       correlation_at data offset <= correlation_at data bestOffset) /\
    (forall offset, In offset (lags sampleRate) ->
       correlation_at data offset = correlation_at data bestOffset ->
       (bestOffset <= offset)%Z)).
  { intros Hne. subst bestOffset. unfold best_offset in *.
    destruct H3 as [Hsame | (Hlt & Hin & Hcorr & Hfirst)].
    - rewrite Hsame in Hne. cbn [fst] in Hne. congruence.
    - split; [exact Hin|]. rewrite <- Hcorr. split; [exact Hlt|].
      split; [exact H2 | exact Hfirst]. }
  assert (Hnote : forall offset,
             In offset (lags sampleRate) -> (0 < offset)%Z ->
             In (note_of_freq (IZR sampleRate / IZR offset)) NOTES).
  { intros offset Hin Hpos. apply note_of_freq_NOTES. left.
    apply detector_freq_above_40; assumption. }
  split; [|split; [exact Hfound|split]].
  - split.
    + intros Hbest offset Hin.
      destruct H3 as [Hsame | (_ & Hin' & _)].
      * rewrite Hsame in H2. apply (H2 offset Hin).
      * apply (lags_nonneg _ _ Hsr) in Hin'.
        subst bestOffset. unfold best_offset in Hbest. lia.
    + intros Hall. subst bestOffset. unfold best_offset.
      rewrite fold_lag_step_no_positive by exact Hall. reflexivity.
  - subst key. unfold key_of_rendered. fold bestOffset.
    destruct (Z.eqb_spec bestOffset (-1)) as [Heq | Hne];
      [left; reflexivity|].
    destruct (Z.eqb_spec bestOffset 0) as [Hz | Hnz]; [left; reflexivity|].
    right. destruct (Hfound Hne) as (Hin & _).
    apply Hnote; [exact Hin|].
    pose proof (lags_nonneg _ _ Hsr Hin). lia.
  - intros Hrate Hne. destruct (Hfound Hne) as (Hin & _).
    pose proof (lags_pos _ _ Hrate Hin) as Hpos.
    subst key. unfold key_of_rendered. fold bestOffset.
    replace (bestOffset =? -1)%Z with false
      by (symmetry; apply Z.eqb_neq; exact Hne).
    replace (bestOffset =? 0)%Z with false
      by (symmetry; apply Z.eqb_neq; lia).
    split; [reflexivity|]. apply Hnote; assumption.
Qed.

Lemma key_of_rendered_note_witness :
  key_of_rendered 44100 [] = "Unknown"%string \/
  In (key_of_rendered 44100 []) NOTES.
Proof.
  destruct (key_of_rendered_note 44100 [] eq_refl) as (_ & _ & Hkey & _).
  exact Hkey.
Defined.

(** ** handleFileUpload: staging the settings *)

(** X15: the settings stored after an upload.  The three compressor
    thresholds are whole numbers hanging on floor(rms): low is two below
    it and high one above.  A peak under -6 dB gets an input gain between
    3 and 6 dB that lifts it to -3 dB (to less when the peak is under
    -9 dB), a peak over -0.5 dB gets -1 dB, and in between the gain stays
    as it was.  The settings with a knob other than the gain are left
    alone. *)
Theorem handleFileUpload_staging :
  forall (trackStats : AudioStats) (settings : MasteringSettings),
    let staged := handleFileUpload_settings trackStats settings in
    mbMidThreshold staged = IZR (Math_floor (rms trackStats)) /\
    mbLowThreshold staged = mbMidThreshold staged - 2 /\
    mbHighThreshold staged = mbMidThreshold staged + 1 /\
    rms trackStats - 1 < mbMidThreshold staged <= rms trackStats /\
    (peak trackStats < -6 ->
     3 < inputGain staged <= 6 /\
     peak trackStats + inputGain staged <= -3 /\
     (-9 <= peak trackStats -> peak trackStats + inputGain staged = -3)) /\
    (peak trackStats > -0.5 -> inputGain staged = -1) /\
    (-6 <= peak trackStats <= -0.5 -> inputGain staged = inputGain settings) /\
    (forall key, key <> InputGain -> knob_range key <> None ->
       setting key staged = setting key settings).
Proof.
  intros trackStats settings staged. subst staged.
  unfold handleFileUpload_settings. cbv zeta.
  cbn [mbMidThreshold mbLowThreshold mbHighThreshold inputGain].
  unfold Math_floor, Math_min.
  split; [reflexivity|].
  split.
  { replace (rms trackStats - 2) with (rms trackStats + IZR (-2)) by lra.
    rewrite Zfloor_addz, plus_IZR. lra. }
  split.
  { replace (rms trackStats + 1) with (rms trackStats + IZR 1) by lra.
    rewrite Zfloor_addz, plus_IZR. lra. }
  split.
  { pose proof (Zfloor_bound (rms trackStats)). lra. }
  split.
  { intros Hlow.
    replace (Rltb (peak trackStats) (-6)) with true
      by (symmetry; apply Rltb_true; exact Hlow).
    split; [|split].
    - split; [apply Rmin_glb_lt; lra | apply Rmin_l].
    - pose proof (Rmin_r 6 (-3 - peak trackStats)). lra.
    - intros Hnine. rewrite Rmin_right by lra. lra. }
  split.
  { intros Hhigh.
    replace (Rltb (peak trackStats) (-6)) with false
      by (symmetry; apply Rltb_false; lra).
    replace (Rgtb (peak trackStats) (-0.5)) with true
      by (symmetry; apply Rgtb_true; exact Hhigh).
    lra. }
  split.
  { intros [Hlo Hhi].
    replace (Rltb (peak trackStats) (-6)) with false
      by (symmetry; apply Rltb_false; lra).
    replace (Rgtb (peak trackStats) (-0.5)) with false
      by (symmetry; apply Rgtb_false; lra).
    reflexivity. }
  intros key Hgain Hknob.
  destruct key; try reflexivity; cbn [knob_range] in Hknob; congruence.
Qed.

(** ** The analysis of a louder or quieter copy *)



















(** ** The stereo matrix *)

(** X18: the mid/side matrix of the graph with the side gain the width
    setting gives.  It keeps the sum of the two channels and scales their
    difference by width/100: at 100 it is the identity, at 0 both outputs
    carry the mono mix, at -100 the channels are swapped, and a signal
    that is the same on both channels passes unchanged at any width. *)
Theorem stereo_matrix_width :
  forall (settings : MasteringSettings) (left right : R),
    let width := sideGain_gain (setupAudioGraph settings) in
    let out := stereo_matrix width left right in
    fst out + snd out = left + right /\
    fst out - snd out = stereoWidth settings / 100 * (left - right) /\
    (stereoWidth settings = 100 -> out = (left, right)) /\
    (stereoWidth settings = 0 ->
     out = ((left + right) / 2, (left + right) / 2)) /\
    (stereoWidth settings = -100 -> out = (right, left)) /\
    (left = right -> out = (left, right)).
Proof.
  intros settings left right width out. subst out width.
  unfold setupAudioGraph, stereo_matrix. cbv zeta.
  cbn [sideGain_gain fst snd].
  split; [lra|]. split; [lra|].
  split; [|split; [|split]].
  - intros ->. f_equal; lra.
  - intros ->. f_equal; lra.
  - intros ->. f_equal; lra.
  - intros ->. f_equal; lra.
Qed.

(** ** The transport *)

Lemma playAudio_fields f offset t :
  currentTime (playAudio f offset t) = currentTime t /\
  (isPlaying t = true -> isPlaying (playAudio f offset t) = true).
Proof.
  unfold playAudio.
  destruct (audioTime f) as [now|], (bufferDuration f) as [d|];
    split; intros; try reflexivity; assumption.
Qed.

Lemma handleSeek_fields f time t :
  currentTime (handleSeek f time t) = time /\
  startOffsetRef (handleSeek f time t) = time /\
  isPlaying (handleSeek f time t) = isPlaying t.
Proof.
  unfold handleSeek. cbv zeta. destruct (isPlaying t) eqn:Hp.
  - unfold playAudio.
    destruct (audioTime f) as [now|], (bufferDuration f) as [d|];
      repeat split; reflexivity.
  - cbn [currentTime startOffsetRef isPlaying]. repeat split. 
Qed.

(** X19: a jump of eight bars.  With a tempo of 0 nothing happens.
    Otherwise the playhead moves by 1920 / bpm seconds in the given
    direction, stopped at 0 and at the end of the track, the offset the
    next playback starts from is the new playhead, and playing or paused
    stays as it was; without statistics the playhead goes to 0. *)
Theorem jumpBars_moves :
  forall (f : Frame) (bpm direction : Z) (stats : AudioStats) (t : Transport),
    0 <= stats_duration stats ->
    jumpBars f 0 (Some stats) direction t = t /\
    (bpm <> 0%Z ->
     let t' := jumpBars f bpm (Some stats) direction t in
     let target := currentTime t + 1920 / IZR bpm * IZR direction in
     0 <= currentTime t' <= stats_duration stats /\
     (0 <= target <= stats_duration stats -> currentTime t' = target) /\
     (target < 0 -> currentTime t' = 0) /\
     (stats_duration stats < target -> currentTime t' = stats_duration stats) /\
     startOffsetRef t' = currentTime t' /\
     isPlaying t' = isPlaying t /\
     currentTime (jumpBars f bpm None direction t) = 0).
Proof.
  intros f bpm direction stats t Hdur. split; [reflexivity|].
  intros Hbpm. cbv zeta. unfold jumpBars. cbv zeta.
  replace (bpm =? 0)%Z with false by (symmetry; apply Z.eqb_neq; exact Hbpm).
  assert (Hb : IZR bpm <> 0) by (apply not_0_IZR; exact Hbpm).
  replace (60 / IZR bpm * 4 * 8) with (1920 / IZR bpm) by (field; exact Hb).
  set (target := currentTime t + 1920 / IZR bpm * IZR direction).
  assert (Hd : or_default (stats_duration stats) 0 = stats_duration stats).
  { unfold or_default. destruct (Req_dec_T (stats_duration stats) 0) as [-> |];
      reflexivity. }
  rewrite Hd.
  destruct (handleSeek_fields f
              (Math_max 0 (Math_min (stats_duration stats) target)) t)
    as (Hc & Ho & Hp).
  destruct (handleSeek_fields f (Math_max 0 (Math_min 0 target)) t)
    as (Hc0 & _ & _).
  rewrite Hc, Ho, Hp, Hc0. unfold Math_max, Math_min.
  split.
  { split; [apply Rmax_l|]. apply Rmax_lub; [exact Hdur | apply Rmin_l]. }
  split.
  { intros [Hlo Hhi]. rewrite Rmin_right, Rmax_right by lra. reflexivity. }
  split.
  { intros Hneg. rewrite Rmin_right, Rmax_left by lra. reflexivity. }
  split.
  { intros Hover. rewrite Rmin_left, Rmax_right by lra. reflexivity. }
  split; [reflexivity|]. split; [reflexivity|].
  apply Rmax_left. apply Rmin_l.
Qed.

Lemma jumpBars_moves_witness :
  currentTime (jumpBars (frame_at 40) 128 (Some scenario_stats) 1 paused_at_12)
  = 12.5 + 1920 / 128 * 1.
Proof.
  destruct (jumpBars_moves (frame_at 40) 128 1 scenario_stats paused_at_12)
    as [_ H].
  - cbn [scenario_stats stats_duration]. lra.
  - destruct H as (_ & Hin & _); [discriminate|].
    apply Hin. cbn [scenario_stats stats_duration paused_at_12 currentTime].
    lra.
Defined.

(** X20: pausing and resuming keeps the position.  Pausing stops the
    clock where it is and frames that arrive while paused change nothing;
    after resuming at audio time [resumed], a frame at audio time [now]
    shows the position at the pause plus [now - resumed], however long
    the pause lasted; and when that reaches the end of the track the
    frame stops playback and leaves the displayed position alone. *)
Theorem pause_resume_position :
  forall (t : Transport) (f_resume f_later : Frame) (resumed now d : R),
    isPlaying t = false ->
    audioTime f_resume = Some resumed -> bufferDuration f_resume = Some d ->
    audioTime f_later = Some now -> bufferDuration f_later = Some d ->
    let playing := togglePlayback f_resume t in
    isPlaying playing = true /\
    togglePlayback f_later playing = handleStop playing /\
    currentTime (togglePlayback f_later playing) = currentTime t /\
    updateTime f_later t = t /\
    (currentTime t + (now - resumed) < d ->
     currentTime (updateTime f_later playing) = currentTime t + (now - resumed)
     /\ isPlaying (updateTime f_later playing) = true) /\
    (d <= currentTime t + (now - resumed) ->
     currentTime (updateTime f_later playing) = currentTime t
     /\ isPlaying (updateTime f_later playing) = false).
Proof.
  intros t f_resume f_later resumed now d Hpaused Hr Hrd Hn Hnd playing.
  assert (Hplaying :
    playing = mkTransport true (currentTime t) resumed (currentTime t)
                (lastMeterUpdateRef t) (meterSmoothingRef t) (liveStats t)).
  { subst playing. unfold togglePlayback. rewrite Hpaused.
    unfold playAudio. rewrite Hr, Hrd. reflexivity. }
  clearbody playing. subst playing.
  set (playing := mkTransport true (currentTime t) resumed (currentTime t)
                    (lastMeterUpdateRef t) (meterSmoothingRef t) (liveStats t)).
  split; [reflexivity|]. split; [reflexivity|]. split; [reflexivity|].
  split.
  { unfold updateTime. rewrite Hpaused. reflexivity. }
  split.
  - intros Hin. unfold updateTime. cbv zeta.
    cbn [isPlaying playing startTimeRef startOffsetRef].
    rewrite Hn. unfold track_ended. rewrite Hnd.
    replace (Rleb d (currentTime t + (now - resumed))) with false
      by (symmetry; apply Rleb_false; exact Hin).
    destruct (timeDomainData f_later) as [dataArray|]; [|split; reflexivity].
    cbn [setCurrentTime lastMeterUpdateRef].
    destruct (Rgtb _ 50); [|split; reflexivity].
    unfold meterUpdate. destruct (scan dataArray) as [sumSquares pk].
    split; reflexivity.
  - intros Hend. unfold updateTime. cbv zeta.
    cbn [isPlaying playing startTimeRef startOffsetRef].
    rewrite Hn. unfold track_ended. rewrite Hnd.
    replace (Rleb d (currentTime t + (now - resumed))) with true
      by (symmetry; apply Rleb_true; exact Hend).
    split; reflexivity.
Qed.

Lemma pause_resume_position_witness :
  currentTime (updateTime (frame_at 43) (togglePlayback (frame_at 40) paused_at_12))
  = 12.5 + (43 - 40).
Proof.
  destruct (pause_resume_position paused_at_12 (frame_at 40) (frame_at 43)
              40 43 180 eq_refl eq_refl eq_refl eq_refl eq_refl)
    as (_ & _ & _ & _ & Hin & _).
  apply Hin. cbn [paused_at_12 currentTime]. lra.
Defined.

(** ** More on the meters *)









(** ** The knob's pointer *)

(** X22: the pointer of a knob with min < max.  It stays within -135 and
    +135 degrees exactly when the value is within the knob's range, with
    the two ends at min and max; whatever a drag hands to [onChange]
    points within that arc; and a drag that stays inside the range turns
    the pointer by 1.35 degrees per pixel, whatever the knob's range. *)
Theorem Knob_rotation_range :
  forall min max : R,
    min < max ->
    (forall value,
       -135 <= Knob_rotation min max value <= 135 <-> min <= value <= max) /\
    Knob_rotation min max min = -135 /\
    Knob_rotation min max max = 135 /\
    (forall startValue startY clientY,
       -135 <= Knob_rotation min max
                 (Knob_handleMouseMove min max startValue startY clientY)
            <= 135) /\
    (forall startValue startY clientY,
       min <= startValue + (startY - clientY) / 200 * (max - min) <= max ->
       Knob_rotation min max
         (Knob_handleMouseMove min max startValue startY clientY)
       = Knob_rotation min max startValue + 1.35 * (startY - clientY)).
Proof.
  intros min max Hlt.
  assert (Hrot : forall value,
             Knob_rotation min max value * (max - min)
             = -135 * (max - min) + (value - min) * 270).
  { intros value. unfold Knob_rotation, Knob_percentage. field. lra. }
  assert (Hiff : forall value,
             -135 <= Knob_rotation min max value <= 135 <-> min <= value <= max).
  { intros value. specialize (Hrot value).
    set (r := Knob_rotation min max value) in *. split.
    - intros [Hlo Hhi]. split; nra.
    - intros [Hlo Hhi]. split; nra. }
  split; [exact Hiff|].
  split; [unfold Knob_rotation, Knob_percentage; field; lra|].
  split; [unfold Knob_rotation, Knob_percentage; field; lra|].
  split.
  - intros startValue startY clientY. apply Hiff.
    apply Knob_handleMouseMove_range. lra.
  - intros startValue startY clientY [Hlo Hhi].
    unfold Knob_handleMouseMove, Math_max, Math_min. cbv zeta.
    rewrite Rmin_right, Rmax_right by lra.
    replace 1.35 with (135 / 100) by lra.
    unfold Knob_rotation, Knob_percentage. field. lra.
Qed.

Lemma Knob_rotation_range_witness :
  Knob_rotation (-12) 12 (-12) = -135 /\ Knob_rotation (-12) 12 12 = 135.
Proof.
  destruct (Knob_rotation_range (-12) 12 ltac:(lra)) as (_ & Hmin & Hmax & _).
  split; [exact Hmin | exact Hmax].
Defined.

(** ** The monitor *)

(** X23: the two bars of the monitor.  Neither is ever wider than 100%,
    and both are 0 at -100 dB and below; but between -100 and -60 dB the
    computed width is negative.  The energy bar is full from -10 dB on. *)
Theorem monitor_bar_widths :
  forall level : R,
    energy_width level <= 100 /\ peak_width level <= 100 /\
    (level <= -100 -> energy_width level = 0 /\ peak_width level = 0) /\
    (energy_width level < 0 <-> -100 < level < -60) /\
    (peak_width level < 0 <-> -100 < level < -60) /\
    (-10 <= level -> energy_width level = 100).
Proof.
  intros level. unfold energy_width, peak_width, Math_min.
  destruct (Rgtb level (-100)) eqn:Hgt;
    [apply Rgtb_true in Hgt | apply Rgtb_false in Hgt].
  - pose proof (Rmin_l 100 ((level + 60) * 2)) as He.
    pose proof (Rmin_l 100 ((level + 60) * 1.8)) as Hp.
    split; [exact He|]. split; [exact Hp|].
    split; [intros; lra|].
    split; [|split].
    + split.
      * intros Hneg. unfold Rmin in Hneg.
        destruct (Rle_dec 100 ((level + 60) * 2)); lra.
      * intros [_ Hlow]. pose proof (Rmin_r 100 ((level + 60) * 2)). lra.
    + split.
      * intros Hneg. unfold Rmin in Hneg.
        destruct (Rle_dec 100 ((level + 60) * 1.8)); lra.
      * intros [_ Hlow]. pose proof (Rmin_r 100 ((level + 60) * 1.8)). lra.
    + intros Hloud. apply Rmin_left. lra.
  - split; [lra|]. split; [lra|].
    split; [intros; split; reflexivity|].
    split; [split; intros; lra|].
    split; [split; intros; lra|].
    intros; lra.
Qed.

(** Evaluates the comparison of a score that is a closed number. *)
Ltac eval_verdict :=
  match goal with
  | |- context [Z.ltb ?a ?b] =>
      let v := eval vm_compute in (Z.ltb a b) in
      change (Z.ltb a b) with v; cbv iota
  end.

(** X24: the verdict under the score ring.  A track is "Club Ready"
    exactly when its peak is at most -0.1 dB, its crest factor at least 4,
    its stereo correlation not negative, and not both its crest factor
    over 15 and its correlation over 0.95: one of those two smaller
    penalties leaves the verdict, both together cost it.  Otherwise the
    verdict is "Needs Work".  The ring's dash offset is between 0 and
    157.5. *)
Theorem mix_health_club_ready :
  forall stats : AudioStats,
    let ready :=
      peak stats <= -0.1 /\ 4 <= crestFactor stats /\
      0 <= stereoCorrelation stats /\
      (crestFactor stats <= 15 \/ stereoCorrelation stats <= 0.95) in
    (mix_health (calculateProductionScore stats) = "Club Ready"%string <->
     ready) /\
    (mix_health (calculateProductionScore stats) = "Needs Work"%string <->
     ~ ready) /\
    0 <= strokeDashoffset (calculateProductionScore stats) <= 157.5.
Proof.
  intros stats ready. subst ready. split; [|split].
  - unfold calculateProductionScore, mix_health. cbv zeta.
    rewrite Math_floor_IZR.
    destruct (Rgtb (peak stats) (-0.1)) eqn:P;
      destruct (Rltb (crestFactor stats) 4) eqn:C4;
      destruct (Rgtb (crestFactor stats) 15) eqn:C15;
      destruct (Rltb (stereoCorrelation stats) 0) eqn:S0;
      destruct (Rgtb (stereoCorrelation stats) 0.95) eqn:S95;
      rewrite ?Rltb_true, ?Rgtb_true, ?Rltb_false, ?Rgtb_false in *;
      eval_verdict;
      (split; [intros Heq; try discriminate Heq;
               (split; [lra|]); (split; [lra|]); (split; [lra|]);
               first [left; lra | right; lra]
              | intros (H1 & H2 & H3 & [H4 | H4]); try reflexivity; lra]).
  - unfold calculateProductionScore, mix_health. cbv zeta.
    rewrite Math_floor_IZR.
    destruct (Rgtb (peak stats) (-0.1)) eqn:P;
      destruct (Rltb (crestFactor stats) 4) eqn:C4;
      destruct (Rgtb (crestFactor stats) 15) eqn:C15;
      destruct (Rltb (stereoCorrelation stats) 0) eqn:S0;
      destruct (Rgtb (stereoCorrelation stats) 0.95) eqn:S95;
      rewrite ?Rltb_true, ?Rgtb_true, ?Rltb_false, ?Rgtb_false in *;
      eval_verdict;
      (split; [intros Heq; try discriminate Heq;
               intros (H1 & H2 & H3 & [H4 | H4]); lra
              | intros Hnot; try reflexivity; exfalso; apply Hnot;
                (split; [lra|]); (split; [lra|]); (split; [lra|]);
                first [left; lra | right; lra]]).
  - pose proof (calculateProductionScore_range stats) as [Hlo Hhi].
    apply IZR_le in Hlo, Hhi. unfold strokeDashoffset. lra.
Qed.

(** ** The clock *)

Lemma Zfloor_div x n :
  (0 < n)%Z -> Zfloor (x / IZR n) = (Zfloor x / n)%Z.
Proof.
  intros Hn. apply Zfloor_eq.
  pose proof (Zfloor_bound x) as [Hlo Hhi].
  pose proof (Z.div_mod (Zfloor x) n ltac:(lia)) as Hdm.
  pose proof (Z.mod_pos_bound (Zfloor x) n Hn) as [Hr0 Hrn].
  set (q := (Zfloor x / n)%Z) in *. set (r := (Zfloor x mod n)%Z) in *.
  assert (HN : 0 < IZR n) by (apply IZR_lt; exact Hn).
  assert (Hx : IZR (Zfloor x) = IZR n * IZR q + IZR r)
    by (rewrite Hdm, plus_IZR, mult_IZR; reflexivity).
  assert (Hr0' : 0 <= IZR r) by (apply IZR_le; exact Hr0).
  assert (Hrn' : IZR r + 1 <= IZR n)
    by (rewrite <- (plus_IZR r 1); apply IZR_le; lia).
  split.
  - apply Rmult_le_reg_r with (IZR n); [exact HN|].
    unfold Rdiv. rewrite Rmult_assoc, Rinv_l by lra. nra.
  - apply Rmult_lt_reg_r with (IZR n); [exact HN|].
    unfold Rdiv. rewrite Rmult_assoc, Rinv_l by lra. nra.
Qed.

Lemma formatTime_parts time :
  0 <= time ->
  Math_floor (time / 60) = (Math_floor time / 60)%Z /\
  Math_floor (js_rem time 60) = (Math_floor time mod 60)%Z.
Proof.
  intros Ht. unfold Math_floor.
  assert (Hm : Zfloor (time / 60) = (Zfloor time / 60)%Z)
    by (apply (Zfloor_div time 60); lia).
  split; [exact Hm|].
  unfold js_rem, truncate.
  replace (Rltb (time / 60) 0) with false
    by (symmetry; apply Rltb_false; apply div_nonneg; lra).
  rewrite Hm.
  replace (time - 60 * IZR (Zfloor time / 60))
    with (time + IZR (- (60 * (Zfloor time / 60))))
    by (rewrite opp_IZR, mult_IZR; lra).
  rewrite Zfloor_addz, Z.mod_eq by lia. lia.
Qed.

Lemma string_length_append (s1 s2 : string) :
  String.length (s1 ++ s2) = (String.length s1 + String.length s2)%nat.
Proof.
  induction s1 as [|c s1 IH]; [reflexivity|].
  cbn [append String.length Nat.add]. rewrite IH. reflexivity.
Qed.

Lemma padStart2_two_digits z :
  (0 <= z < 100)%Z ->
  String.length (padStart2 (Number_toString z)) = 2%nat.
Proof.
  intros Hz.
  assert (Hall :
    forallb (fun k => Nat.eqb (String.length
                                 (padStart2 (Number_toString (Z.of_nat k)))) 2)
            (seq 0 100) = true) by (vm_compute; reflexivity).
  rewrite forallb_forall in Hall.
  specialize (Hall (Z.to_nat z)).
  rewrite Z2Nat.id in Hall by lia.
  apply Nat.eqb_eq, Hall, in_seq. lia.
Qed.

(** X25: the clock shows whole seconds only.  For a time that is not
    negative the two fields are the quotient and the remainder of the
    whole seconds by 60, so the seconds are between 0 and 59 and the
    fraction of a second does not show; below 100 minutes the text has
    exactly five characters. *)
Theorem formatTime_clock :
  forall time : R,
    0 <= time ->
    let whole := Math_floor time in
    formatTime time =
      (padStart2 (Number_toString (whole / 60)) ++ ":"
       ++ padStart2 (Number_toString (whole mod 60)))%string /\
    (0 <= whole mod 60 < 60)%Z /\
    formatTime time = formatTime (IZR whole) /\
    (time < 6000 -> String.length (formatTime time) = 5%nat).
Proof.
  intros time Ht whole.
  destruct (formatTime_parts time Ht) as [Hm Hs].
  assert (Hfmt : formatTime time =
                 (padStart2 (Number_toString (whole / 60)) ++ ":"
                  ++ padStart2 (Number_toString (whole mod 60)))%string).
  { unfold formatTime. cbv zeta. rewrite Hm, Hs. reflexivity. }
  assert (Hwhole : (0 <= whole)%Z)
    by (apply Zfloor_lub; exact Ht).
  split; [exact Hfmt|].
  split; [apply Z.mod_pos_bound; lia|].
  split.
  - rewrite Hfmt.
    destruct (formatTime_parts (IZR whole)) as [Hm' Hs'];
      [apply IZR_le; exact Hwhole|].
    unfold formatTime. cbv zeta. rewrite Hm', Hs', Math_floor_IZR.
    reflexivity.
  - intros Hshort. rewrite Hfmt.
    assert (Hlt : (whole < 6000)%Z).
    { apply lt_IZR. pose proof (Zfloor_bound time) as [Hlo _].
      unfold whole, Math_floor. lra. }
    assert (Hmin : (0 <= whole / 60 < 100)%Z)
      by (split; [apply Z.div_pos; lia | apply Z.div_lt_upper_bound; lia]).
    assert (Hsec : (0 <= whole mod 60 < 100)%Z)
      by (pose proof (Z.mod_pos_bound whole 60 ltac:(lia)); lia).
    rewrite !string_length_append.
    rewrite (padStart2_two_digits _ Hmin), (padStart2_two_digits _ Hsec).
    reflexivity.
Qed.

Lemma formatTime_clock_witness : formatTime 61.5 = "01:01"%string.
Proof.
  destruct (formatTime_clock 61.5 ltac:(lra)) as (Hfmt & _).
  rewrite Hfmt.
  replace (Math_floor 61.5) with 61%Z by (symmetry; apply Zfloor_eq; lra).
  reflexivity.
Defined.

(** ** The waveform's playhead *)

(** X26: a click on the waveform puts the playhead under the pointer.
    With a track loaded the click seeks to the clicked fraction of the
    track, which lies within the track for a click inside the canvas, and
    the playhead is then drawn at that fraction of the canvas; with a
    duration of 0 the click does nothing. *)
Theorem click_moves_playhead :
  forall (f : Frame) (t : Transport)
         (duration clientX rect_left rect_width canvas_width : R),
    0 < duration -> 0 < rect_width ->
    Visualizer_handleClick 0 clientX rect_left rect_width = None /\
    exists newTime,
      Visualizer_handleClick duration clientX rect_left rect_width
        = Some newTime /\
      (rect_left <= clientX <= rect_left + rect_width ->
       0 <= newTime <= duration) /\
      currentTime (handleSeek f newTime t) = newTime /\
      Visualizer_progressWidth canvas_width
        (currentTime (handleSeek f newTime t)) duration
      = canvas_width * ((clientX - rect_left) / rect_width).
Proof.
  intros f t duration clientX rect_left rect_width canvas_width Hd Hw.
  split.
  { unfold Visualizer_handleClick.
    destruct (Req_dec_T 0 0) as [_ | Hne]; [reflexivity | lra]. }
  exists ((clientX - rect_left) / rect_width * duration).
  split.
  { unfold Visualizer_handleClick.
    destruct (Req_dec_T duration 0) as [Hz | _]; [lra | reflexivity]. }
  destruct (handleSeek_fields f ((clientX - rect_left) / rect_width * duration) t)
    as (Hc & _ & _).
  rewrite Hc. split; [|split; [reflexivity|]].
  - intros [Hlo Hhi].
    assert (Hratio : 0 <= (clientX - rect_left) / rect_width <= 1).
    { split.
      - apply div_nonneg; lra.
      - apply Rmult_le_reg_r with rect_width; [exact Hw|].
        unfold Rdiv. rewrite Rmult_assoc, Rinv_l by lra. lra. }
    split; nra.
  - unfold Visualizer_progressWidth. cbv zeta.
    rewrite or_default_nonzero by lra. field. lra.
Qed.

Lemma click_moves_playhead_witness :
  exists newTime,
    Visualizer_handleClick 180 500 100 800 = Some newTime /\
    0 <= newTime <= 180 /\
    Visualizer_progressWidth 800
      (currentTime (handleSeek (frame_at 40) newTime paused_at_12)) 180
    = 800 * ((500 - 100) / 800).
Proof.
  destruct (click_moves_playhead (frame_at 40) paused_at_12 180 500 100 800 800
              ltac:(lra) ltac:(lra))
    as (_ & newTime & Hclick & Hin & _ & Hdraw).
  exists newTime. split; [exact Hclick|]. split; [apply Hin; lra | exact Hdraw].
Defined.

(** ** The assistant's calls *)

Lemma handleChatSubmit_settings_untouched key calls : forall prev,
  Forall (fun call => mentions key call = false) calls ->
  setting key (handleChatSubmit_settings calls prev) = setting key prev.
Proof.
  unfold handleChatSubmit_settings.
  induction calls as [|call calls IH]; intros prev Hnone; [reflexivity|].
  inversion Hnone as [|x l Hcall Hrest]; subst.
  cbn [fold_left]. rewrite (IH _ Hrest).
  destruct call as [args| | |]; try reflexivity.
  rewrite setting_applyArgs. cbn [mentions] in Hcall.
  destruct (args key); [discriminate | reflexivity].
Qed.

(** X27: the settings after the calls of one response.  For every
    setting the last [update_mastering_settings] call that carries it
    decides, with the value as sent; a setting no call carries keeps its
    value; calls of other kinds change no setting. *)
Theorem handleChatSubmit_last_call_wins :
  forall (key : SettingKey) (before after : list FunctionCall)
         (args : SettingsArgs) (value : R) (prev : MasteringSettings),
    args key = Some value ->
    Forall (fun call => mentions key call = false) after ->
    setting key
      (handleChatSubmit_settings
         (before ++ update_mastering_settings args :: after) prev) = value /\
    (Forall (fun call => mentions key call = false) before ->
     setting key (handleChatSubmit_settings (before ++ after) prev)
     = setting key prev).
Proof.
  intros key before after args value prev Hargs Hafter. split.
  - unfold handleChatSubmit_settings. rewrite fold_left_app. cbn [fold_left].
    pose proof (handleChatSubmit_settings_untouched key after) as Hrest.
    unfold handleChatSubmit_settings in Hrest.
    rewrite (Hrest _ Hafter), setting_applyArgs, Hargs. reflexivity.
  - intros Hbefore. apply handleChatSubmit_settings_untouched.
    apply Forall_app. split; assumption.
Qed.

Lemma handleChatSubmit_last_call_wins_witness :
  inputGain (handleChatSubmit_settings two_calls initialSettings) = 20.
Proof.
  apply (handleChatSubmit_last_call_wins InputGain [] 
           [playback_control play; update_mastering_settings args_low_3]
           args_gain_20 20 initialSettings eq_refl).
  repeat constructor.
Defined.

(** ** The cached waveform *)

Lemma Zceil_div n m :
  (0 < m)%Z -> Zceil (IZR n / IZR m) = ((n + m - 1) / m)%Z.
Proof.
  intros Hm. apply Zceil_eq.
  pose proof (Z.div_mod (n + m - 1) m ltac:(lia)) as Hdm.
  pose proof (Z.mod_pos_bound (n + m - 1) m Hm) as [Hr0 Hrm].
  set (z := ((n + m - 1) / m)%Z) in *.
  assert (HM : 0 < IZR m) by (apply IZR_lt; exact Hm).
  assert (Hup : IZR n <= IZR m * IZR z)
    by (rewrite <- mult_IZR; apply IZR_le; lia).
  assert (Hlo : IZR m * IZR z - IZR m < IZR n)
    by (rewrite <- mult_IZR, <- minus_IZR; apply IZR_lt; lia).
  split.
  - apply Rmult_lt_reg_r with (IZR m); [exact HM|].
    unfold Rdiv. rewrite Rmult_assoc, Rinv_l by lra. nra.
  - apply Rmult_le_reg_r with (IZR m); [exact HM|].
    unfold Rdiv. rewrite Rmult_assoc, Rinv_l by lra. nra.
Qed.

Lemma waveform_step_div data :
  waveform_step data = ((Z.of_nat (length data) + 799) / 800)%Z.
Proof.
  unfold waveform_step, Math_ceil. rewrite Zceil_div by lia.
  f_equal. lia.
Qed.

Lemma typed_read_inside data k :
  (0 <= k < Z.of_nat (length data))%Z ->
  typed_read data k = Some (typed_get data k).
Proof.
  intros Hk. unfold typed_read, typed_get.
  replace (k <? 0)%Z with false by (symmetry; apply Z.ltb_ge; lia).
  apply nth_error_nth'. lia.
Qed.

Lemma typed_read_outside data k :
  (Z.of_nat (length data) <= k)%Z -> typed_read data k = None.
Proof.
  intros Hk. unfold typed_read.
  replace (k <? 0)%Z with false by (symmetry; apply Z.ltb_ge; lia).
  apply nth_error_None. lia.
Qed.

(** What the inner loop leaves in [(min, max)]. *)
Lemma extrema_fold data base js : forall acc,
  let acc' := fold_left (extrema_step data base) js acc in
  ((forall j, In j js -> typed_read data (base + j) = None) -> acc' = acc) /\
  (forall j datum, In j js -> typed_read data (base + j) = Some datum ->
                   fst acc' <= datum <= snd acc') /\
  fst acc' <= fst acc /\ snd acc <= snd acc' /\
  (forall lo hi,
     (forall j datum, In j js -> typed_read data (base + j) = Some datum ->
                      lo <= datum <= hi) ->
     (lo <= fst acc <= hi -> lo <= fst acc' <= hi) /\
     (lo <= snd acc <= hi -> lo <= snd acc' <= hi)).
Proof.
  induction js as [|j js IH]; intros [mn mx]; cbv zeta; cbn [fold_left].
  - split; [reflexivity|]. split; [intros j datum []|].
    cbn [fst snd]. split; [lra|]. split; [lra|].
    intros lo hi _. split; intros H; exact H.
  - destruct (IH (extrema_step data base (mn, mx) j)) as (H1 & H2 & H3 & H4 & H5).
    set (acc' := fold_left (extrema_step data base) js
                           (extrema_step data base (mn, mx) j)) in *.
    unfold extrema_step in H1, H3, H4, H5.
    destruct (typed_read data (base + j)) as [d|] eqn:Hread.
    + cbn [fst snd] in *.
      assert (Hmn : (if Rltb d mn then d else mn) <= d /\
                    (if Rltb d mn then d else mn) <= mn).
      { destruct (Rltb d mn) eqn:Hlt;
          [apply Rltb_true in Hlt | apply Rltb_false in Hlt]; lra. }
      assert (Hmx : d <= (if Rgtb d mx then d else mx) /\
                    mx <= (if Rgtb d mx then d else mx)).
      { destruct (Rgtb d mx) eqn:Hgt;
          [apply Rgtb_true in Hgt | apply Rgtb_false in Hgt]; lra. }
      split.
      { intros Hnone. specialize (Hnone j (or_introl eq_refl)). congruence. }
      split.
      { intros j' datum [<- | Hin] Hd.
        - rewrite Hread in Hd. inversion Hd; subst. lra.
        - apply (H2 j' datum Hin Hd). }
      split; [lra|]. split; [lra|].
      intros lo hi Hall.
      assert (Hd : lo <= d <= hi)
        by (apply (Hall j d (or_introl eq_refl) Hread)).
      destruct (H5 lo hi) as [Hf Hs].
      { intros j' datum Hin. apply Hall. right. exact Hin. }
      split; intros Hacc.
      * apply Hf. destruct (Rltb d mn); lra.
      * apply Hs. destruct (Rgtb d mx); lra.
    + cbn [fst snd] in *.
      split.
      { intros Hnone. apply H1. intros j' Hin. apply Hnone. right. exact Hin. }
      split.
      { intros j' datum [<- | Hin] Hd; [congruence|].
        apply (H2 j' datum Hin Hd). }
      split; [exact H3|]. split; [exact H4|].
      intros lo hi Hall. apply H5.
      intros j' datum Hin. apply Hall. right. exact Hin.
Qed.

(** X28: the 800 columns of the cached waveform.  Together they cover
    the whole buffer.  A column that starts inside the buffer, with
    samples between -1 and 1, is drawn as a bar inside the canvas that
    spans all its samples.  A column that starts at or after the end of
    the buffer keeps the initial extremes (min 1, max -1) and is drawn
    from y = 120 with a height of -120, a bar over the full height; with
    more than 638401 samples no column is like that. *)
Theorem waveform_columns :
  forall data : list R,
    let len := Z.of_nat (length data) in
    let step := waveform_step data in
    (len <= 800 * step)%Z /\
    (forall i : Z, (0 <= i < 800)%Z ->
       ((len <= i * step)%Z ->
        waveform_rect data i = (IZR i, 120, 1, -120)) /\
       ((i * step < len)%Z ->
        (forall k, (0 <= k < len)%Z -> -1 <= typed_get data k <= 1) ->
        let '(_, y, _, h) := waveform_rect data i in
        0 <= y /\ 0 <= h /\ y + h <= 120 /\
        forall k, (i * step <= k < Z.min ((i + 1) * step) len)%Z ->
                  y <= (1 + typed_get data k) * 60 <= y + h)) /\
    ((638401 < len)%Z ->
     forall i : Z, (0 <= i < 800)%Z -> (i * step < len)%Z).
Proof.
  intros data len step.
  assert (Hstep : step = ((len + 799) / 800)%Z) by apply waveform_step_div.
  pose proof (Z.div_mod (len + 799) 800 ltac:(lia)) as Hdm.
  pose proof (Z.mod_pos_bound (len + 799) 800 ltac:(lia)) as Hmod.
  rewrite <- Hstep in Hdm.
  assert (Hlen : (0 <= len)%Z) by (unfold len; lia).
  assert (Hcover : (len <= 800 * step)%Z) by lia.
  assert (Hstep0 : (0 <= step)%Z) by lia.
  split; [exact Hcover|]. split.
  - intros i Hi.
    destruct (extrema_fold data (i * step) (for_range 0 step) (1.0, -1.0))
      as (Hnone & Hin & Hmin & Hmax & Hbounds).
    split.
    + intros Hempty. unfold waveform_rect, waveform_column. cbv zeta.
      fold step. rewrite Hnone.
      * cbv beta iota zeta.
        replace ((1 + 1.0) * (120 / 2)) with 120 by lra.
        replace ((1 + -1.0) * (120 / 2) - 120) with (-120) by lra.
        reflexivity.
      * intros j Hj. apply In_for_range in Hj.
        apply typed_read_outside. fold len. lia.
    + intros Hstart Hrange. unfold waveform_rect, waveform_column. cbv zeta.
      fold step.
      set (acc := fold_left (extrema_step data (i * step)) (for_range 0 step)
                            (1.0, -1.0)) in *.
      destruct (Hbounds (-1) 1) as [Hf Hs].
      { intros j datum Hj Hread. apply In_for_range in Hj.
        destruct (Z_lt_ge_dec (i * step + j) len) as [Hlt | Hge].
        - rewrite typed_read_inside in Hread by (fold len; nia).
          inversion Hread; subst. apply Hrange. nia.
        - rewrite typed_read_outside in Hread by (fold len; lia).
          discriminate. }
      cbn [fst snd] in Hf, Hs, Hmin, Hmax.
      specialize (Hf ltac:(lra)). specialize (Hs ltac:(lra)).
      assert (Hfirst : fst acc <= typed_get data (i * step) <= snd acc).
      { apply (Hin 0%Z).
        - apply In_for_range. nia.
        - rewrite Z.add_0_r. apply typed_read_inside. fold len. nia. }
      destruct acc as [mn mx]. cbn [fst snd] in *.
      split; [nra|]. split; [nra|]. split; [nra|].
      intros k Hk.
      assert (Hkk : mn <= typed_get data k <= mx).
      { apply (Hin (k - i * step)%Z).
        - apply In_for_range. lia.
        - replace (i * step + (k - i * step))%Z with k by lia.
          apply typed_read_inside. fold len. nia. }
      nra.
  - intros Hlong i Hi.
    destruct (Z_le_gt_dec step 798) as [Hs | Hs]; [lia|].
    destruct (Z.eq_dec step 799) as [He | Hne]; [nia|].
    assert (799 * step < len)%Z by lia. nia.
Qed.

(** ** bufferToWave: a length below zero *)

Lemma view_set_Some v at_ bytes v' :
  view_set v at_ bytes = Some v' ->
  (0 <= at_)%Z /\ (at_ + Z.of_nat (length bytes) <= Z.of_nat (length v))%Z /\
  length v' = length v.
Proof.
  unfold view_set.
  destruct (at_ <? 0)%Z eqn:Hneg; [discriminate|].
  destruct (Z.of_nat (length v) <? at_ + Z.of_nat (length bytes))%Z eqn:Hover;
    [discriminate|].
  cbn [orb]. intros H.
  apply Z.ltb_ge in Hneg, Hover.
  apply (f_equal (fun r => match r with Some l => length l | None => 0%nat end))
    in H.
  rewrite !length_app, length_firstn, length_skipn in H.
  split; [exact Hneg|]. split; [exact Hover|]. lia.
Qed.

Lemma setUint32_Some d w w' :
  setUint32 d w = Some w' ->
  pos w' = (pos w + 4)%Z /\ length (view w') = length (view w) /\
  (0 <= pos w)%Z /\ (pos w + 4 <= Z.of_nat (length (view w)))%Z.
Proof.
  unfold setUint32.
  destruct (view_set (view w) (pos w) (le_bytes32 d)) as [v|] eqn:Hset;
    [|discriminate].
  intros H. apply view_set_Some in Hset. destruct Hset as (H0 & H1 & H2).
  apply (f_equal (fun r => match r with Some x => x | None => w end)) in H.
  subst w'. cbn [pos view le_bytes32 length] in *.
  repeat split; try assumption; lia.
Qed.

Lemma setUint16_Some d w w' :
  setUint16 d w = Some w' ->
  pos w' = (pos w + 2)%Z /\ length (view w') = length (view w) /\
  (0 <= pos w)%Z /\ (pos w + 2 <= Z.of_nat (length (view w)))%Z.
Proof.
  unfold setUint16.
  destruct (view_set (view w) (pos w) (le_bytes16 d)) as [v|] eqn:Hset;
    [|discriminate].
  intros H. apply view_set_Some in Hset. destruct Hset as (H0 & H1 & H2).
  apply (f_equal (fun r => match r with Some x => x | None => w end)) in H.
  subst w'. cbn [pos view le_bytes16 length] in *.
  repeat split; try assumption; lia.
Qed.

Lemma and_then_Some m f w' :
  m >>= f = Some w' -> exists w, m = Some w /\ f w = Some w'.
Proof.
  destruct m as [w|]; [|discriminate]. intros H. exists w. split; [reflexivity | exact H].
Qed.

(** Takes a chain of writes apart, last write first. *)
Ltac split_writes H :=
  repeat (apply and_then_Some in H;
          let w := fresh "w" in
          let Hw := fresh "Hw" in
          destruct H as (w & H & Hw);
          first [apply setUint32_Some in Hw | apply setUint16_Some in Hw];
          destruct Hw as (? & ? & ? & ?)).

(** The header does not fit a view of less than 44 bytes. *)
Lemma write_header_needs_44 numOfChan sampleRate length_ w w' :
  pos w = 0%Z ->
  write_header numOfChan sampleRate length_ w = Some w' ->
  (44 <= Z.of_nat (length (view w)))%Z.
Proof.
  intros Hpos H. unfold write_header in H.
  split_writes H.
  apply (f_equal (fun r => match r with Some x => x | None => w end)) in H.
  subst. lia.
Qed.

(** X29: with a frame count below zero and at least one channel
    [bufferToWave] throws a RangeError: either the buffer cannot be
    allocated or it is too short for the 44-byte header. *)
Theorem bufferToWave_negative_len :
  forall (abuffer : AudioBuffer) (len : Z),
    (len < 0)%Z -> (0 < numberOfChannels abuffer)%nat ->
    bufferToWave abuffer len = None.
Proof.
  intros abuffer len Hlen Hnc. unfold bufferToWave. cbv zeta.
  set (nc := numberOfChannels abuffer) in *.
  unfold ArrayBuffer_new.
  destruct (len * Z.of_nat nc * 2 + 44 <? 0)%Z eqn:Hneg; [reflexivity|].
  apply Z.ltb_ge in Hneg.
  destruct (write_header _ _ _ _) as [w|] eqn:Hheader; [|reflexivity].
  exfalso. apply write_header_needs_44 in Hheader; [|reflexivity].
  cbn [view] in Hheader. rewrite repeat_length in Hheader. nia.
Qed.

Lemma bufferToWave_negative_len_witness : bufferToWave mono_blip (-1) = None.
Proof.
  apply bufferToWave_negative_len; [lia | cbn; lia].
Defined.

(** ** The meters' throttle *)

Lemma updateTime_throttled f t :
  performance_now f - lastMeterUpdateRef t <= 50 ->
  liveStats (updateTime f t) = liveStats t /\
  meterSmoothingRef (updateTime f t) = meterSmoothingRef t /\
  lastMeterUpdateRef (updateTime f t) = lastMeterUpdateRef t.
Proof.
  intros Hsoon. unfold updateTime. cbv zeta.
  destruct (isPlaying t); [|repeat split].
  destruct (audioTime f) as [now|]; [|repeat split].
  destruct (track_ended f _); [repeat split|].
  destruct (timeDomainData f) as [dataArray|]; [|repeat split].
  cbn [setCurrentTime lastMeterUpdateRef].
  replace (Rgtb (performance_now f - lastMeterUpdateRef t) 50) with false
    by (symmetry; apply Rgtb_false; exact Hsoon).
  repeat split.
Qed.

(** X30: the meters are throttled.  A frame that publishes a reading
    records its wall-clock time, and a frame that comes no more than
    50 ms after it changes neither the published reading nor the smoothed
    one nor the recorded time, whatever the analyser holds. *)
Theorem meter_throttle :
  forall (f1 f2 : Frame) (t : Transport),
    publishes f1 t = true ->
    performance_now f2 - performance_now f1 <= 50 ->
    let t1 := updateTime f1 t in
    lastMeterUpdateRef t1 = performance_now f1 /\
    liveStats (updateTime f2 t1) = liveStats t1 /\
    meterSmoothingRef (updateTime f2 t1) = meterSmoothingRef t1 /\
    lastMeterUpdateRef (updateTime f2 t1) = performance_now f1.
Proof.
  intros f1 f2 t Hpub Hsoon t1.
  assert (Hlast : lastMeterUpdateRef t1 = performance_now f1).
  { subst t1.
    destruct (updateTime_publishes f1 t Hpub) as (dataArray & now & _ & _ & ->).
    unfold meterUpdate. destruct (scan dataArray) as [sumSquares pk].
    reflexivity. }
  destruct (updateTime_throttled f2 t1) as (H1 & H2 & H3).
  { rewrite Hlast. exact Hsoon. }
  split; [exact Hlast|]. split; [exact H1|]. split; [exact H2|].
  rewrite H3. exact Hlast.
Qed.

Lemma meter_throttle_witness :
  liveStats (updateTime silent_frame (updateTime silent_frame playing_after_reset))
  = liveStats (updateTime silent_frame playing_after_reset).
Proof.
  destruct (meter_throttle silent_frame silent_frame playing_after_reset
              silent_frame_publishes) as (_ & H & _).
  - cbn [silent_frame performance_now]. lra.
  - exact H.
Defined.
